(** * OVM2: heap image loader and bytecode interpreter

    A shallow embedding of [ovm2/ovm_main.cc]: the 16-byte tagged [Cell], the
    heap loader [Load], the typed views of [OHeap] and [Code], [Frame] name
    resolution, the interpreter loop [VM::RunFrame] and the native function
    [func_print].

    Conventions of the embedding.
    - Bytes are [Init.Byte.byte]; multi-byte integers are decoded
      little-endian ([le_combine]) and, where the C++ type is signed, wrapped
      to two's complement of the declared width.
    - A C++ call that can abort or run into undefined behaviour returns a
      [Res]: [Abort] is a failed [assert], [Undef] is undefined behaviour
      (a read outside the object a pointer points into, [back()] or
      [pop_back()] on an empty vector, a read of an uninitialised variable,
      an allocation of a negative size).
    - A pointer into raw memory is represented by the bytes from the pointer
      to the end of the object it points into (the slab buffer, or one cell);
      the heap is immutable after [Load], so the view is stable.
    - Diagnostic text ([log], [printf]) is not part of the state; the reads a
      diagnostic performs are kept, because they can be out of bounds.
    - [opcode.h] is not in the repository snapshot: the opcode numbers are
      the fields of a record [opcode_h] the interpreter is parametrised by,
      and its table [kOpcodeNames] is taken to have a name for every byte.
    - Integers in the image are little-endian and pointers have eight
      bytes, as the [sizeof(Cell) == 16] assertion of [main] requires.
    - Whether plain [char] is signed is implementation-defined; the
      interpreter is parametrised by it ([char_signed]). *)

From Stdlib Require Import ZArith List Lia Bool.
From coqutil Require Import Byte Word.LittleEndianList.
From stdpp Require Import base option list gmap countable.
Import ListNotations.
Local Open Scope Z_scope.

(** ** Outcomes of a C++ call *)

Inductive Res (A : Type) : Type :=
| Ok (a : A)
| Abort
| Undef.
Arguments Ok {A} a.
Arguments Abort {A}.
Arguments Undef {A}.

Definition bind {A B : Type} (r : Res A) (k : A -> Res B) : Res B :=
  match r with
  | Ok a => k a
  | Abort => Abort
  | Undef => Undef
  end.

Notation "x <- r ;; k" := (bind r (fun x => k))
  (at level 100, r at next level, right associativity).

Definition assert (b : bool) : Res unit := if b then Ok tt else Abort.

(** ** Fixed-width integers and raw memory *)

Definition swrap (w : Z) (z : Z) : Z := (z + 2 ^ (w - 1)) mod 2 ^ w - 2 ^ (w - 1).

Definition int16_le (bs : list byte) : Z := swrap 16 (le_combine bs).
Definition int32_le (bs : list byte) : Z := swrap 32 (le_combine bs).
Definition int64_le (bs : list byte) : Z := swrap 64 (le_combine bs).

Definition B (z : Z) : byte := byte.of_Z z.
Definition NUL : byte := Byte.x00.

#[global] Instance byte_eq_dec : EqDecision byte := Byte.byte_eq_dec.
#[global] Instance byte_countable : Countable byte :=
  inj_countable Byte.to_N Byte.of_N Byte.of_to_N.

(** [n] bytes at offset [off] of the object [mem]. *)
Definition bytes_at (mem : list byte) (off : Z) (n : nat) : Res (list byte) :=
  if (0 <=? off) && (off + Z.of_nat n <=? Z.of_nat (length mem))
  then Ok (take n (drop (Z.to_nat off) mem))
  else Undef.

(** [p[k]] for a [char*] or [uint8_t*] [p]. *)
Definition char_at (p : list byte) (k : Z) : Res byte :=
  bs <- bytes_at p k 1 ;;
  match bs with
  | b :: _ => Ok b
  | [] => Undef
  end.

(** [p[k]] for an [int32_t*] [p]. *)
Definition int32_at (p : list byte) (k : Z) : Res Z :=
  bs <- bytes_at p (4 * k) 4 ;; Ok (int32_le bs).

(** [p + off] for a byte pointer [p]: the rest of the object from there. *)
Definition ptr_add (p : list byte) (off : Z) : list byte :=
  if (0 <=? off) && (off <=? Z.of_nat (length p))
  then drop (Z.to_nat off) p
  else [].

(** The bytes of a C string before its first NUL. *)
Fixpoint cstr (p : list byte) : Res (list byte) :=
  match p with
  | [] => Undef
  | c :: p' => if decide (c = NUL) then Ok [] else s <- cstr p' ;; Ok (c :: s)
  end.

(** [strcmp(x, y) == 0] *)
Definition strcmp_eq (x y : list byte) : Res bool :=
  a <- cstr x ;; b <- cstr y ;; Ok (bool_decide (a = b)).

(** ** Handles, control signals, tags *)

Abbreviation Handle := Z (only parsing).
Abbreviation Args := (list Z) (only parsing).
Abbreviation Rets := (list Z) (only parsing).

Inductive Why : Type :=
| Not
| Exception
| Reraise
| Return
| Break
| Continue
| Yield.

#[global] Instance Why_eq_dec : EqDecision Why.
Proof. solve_decision. Defined.

Definition TAG_NONE : Z := -1.
Definition TAG_BOOL : Z := -2.
Definition TAG_INT : Z := -3.
Definition TAG_FLOAT : Z := -4.
Definition TAG_STR : Z := -5.
Definition TAG_TUPLE : Z := -6.
Definition TAG_CODE : Z := -7.

(** [kTagDebugString] has eight entries; [TagDebugString] indexes it with
    [-tag]. *)
Definition TagDebugString (tag : Z) : Res unit :=
  if (0 <=? - tag) && (- tag <? 8) then Ok tt else Undef.

(** ** Cells *)

(** The second union of [Cell]: the eight bytes as they are in the image
    ([slab_wire], [i] or [d]), or the pointer [slabs + off] the loader put
    there. *)
Inductive Payload : Type :=
| Wire (b : list byte)
| Ptr (off : Z).

Record Cell : Type := mkCell {
  tag : Z;
  is_slab : byte;
  small_len : byte;
  small_val : list byte;
  payload : Payload
}.

(** [cell.slab_wire.offset]: bytes 4..7 of the union. *)
Definition slab_wire_offset (c : Cell) : Res Z :=
  match payload c with
  | Wire b => bs <- bytes_at b 4 4 ;; Ok (int32_le bs)
  | Ptr _ => Undef
  end.

(** [cell.ptr], as an offset from [slabs]. *)
Definition cell_ptr (c : Cell) : Res Z :=
  match payload c with
  | Ptr off => Ok off
  | Wire _ => Undef
  end.

(** [cell.i] *)
Definition cell_i (c : Cell) : Res Z :=
  match payload c with
  | Wire b => bs <- bytes_at b 0 8 ;; Ok (int64_le bs)
  | Ptr _ => Undef
  end.

(** [&cell.small_val]: the twelve bytes that follow the first four. *)
Definition small_val_ptr (c : Cell) : list byte :=
  small_val c ++ match payload c with Wire b => b | Ptr _ => [] end.

Definition slab_flag (c : Cell) : bool := negb (byte.unsigned (is_slab c) =? 0).

Record Str : Type := mkStr { Str_len : Z; Str_data : list byte }.
Record Tuple : Type := mkTuple { Tuple_len : Z; Tuple_handles : list byte }.

(** ** OHeap *)

Record OHeap : Type := mkOHeap {
  slabs_ : list byte;
  num_cells_ : Z;
  cells_ : list Cell
}.

(** [cells_[h]] *)
Definition cell_at (heap : OHeap) (h : Handle) : Res Cell :=
  if h <? 0 then Undef
  else match cells_ heap !! Z.to_nat h with
       | Some c => Ok c
       | None => Undef
       end.

(** The string or tuple view of a cell that passed its tag test. *)
Definition slab_view (heap : OHeap) (cell : Cell) : Res (Z * list byte) :=
  if slab_flag cell then
    p <- cell_ptr cell ;;
    n <- int32_at (ptr_add (slabs_ heap) p) 0 ;;
    Ok (n, ptr_add (slabs_ heap) (p + 4))
  else Ok (byte.unsigned (small_len cell), small_val_ptr cell).

Definition OHeap_AsStr0 (heap : OHeap) (h : Handle) : Res (option (list byte)) :=
  cell <- cell_at heap h ;;
  if negb (tag cell =? TAG_STR) then Ok None
  else if slab_flag cell then
    p <- cell_ptr cell ;; Ok (Some (ptr_add (slabs_ heap) (p + 4)))
  else Ok (Some (small_val_ptr cell)).

(** [Ok None] is [return false]; [Ok (Some s)] is [return true] with [*out]
    set to [s]. *)
Definition OHeap_AsStr (heap : OHeap) (h : Handle) : Res (option Str) :=
  cell <- cell_at heap h ;;
  if negb (tag cell =? TAG_STR) then Ok None
  else v <- slab_view heap cell ;; Ok (Some (mkStr v.1 v.2)).

Definition OHeap_AsInt (heap : OHeap) (h : Handle) : Res (option Z) :=
  cell <- cell_at heap h ;;
  if negb (tag cell =? TAG_STR) then Ok None
  else v <- cell_i cell ;; Ok (Some v).

Record Code : Type := mkCode { self_ : Handle }.

Definition OHeap_AsCode (heap : OHeap) (h : Handle) : Res Code :=
  cell <- cell_at heap h ;;
  _ <- assert (tag cell =? TAG_CODE) ;;
  Ok (mkCode h).

Definition OHeap_Last (heap : OHeap) : Z := num_cells_ heap - 1.

(** [DebugString] prints; what is kept is what it reads. The [TAG_INT] case
    calls [AsInt], ignores its result and prints the local it was to fill:
    when [AsInt] returned false, that local is uninitialised. *)
Definition OHeap_DebugString (heap : OHeap) (h : Handle) : Res unit :=
  cell <- cell_at heap h ;;
  if tag cell =? TAG_NONE then Ok tt
  else if tag cell =? TAG_BOOL then Ok tt
  else if tag cell =? TAG_INT then
    i <- OHeap_AsInt heap h ;;
    match i with
    | Some _ => Ok tt
    | None => Undef
    end
  else if tag cell =? TAG_FLOAT then Ok tt
  else if tag cell =? TAG_STR then
    s <- OHeap_AsStr0 heap h ;;
    match s with
    | Some p => _ <- cstr p ;; Ok tt
    | None => Undef
    end
  else TagDebugString (tag cell).

(** ** Code: the field table of a code object *)

(** [slab[field_index]], where [slab] is [self_->ptr] read as [int32_t*]. *)
Definition Code_field (heap : OHeap) (co : Code) (field_index : Z) : Res Handle :=
  self <- cell_at heap (self_ co) ;;
  p <- cell_ptr self ;;
  int32_at (ptr_add (slabs_ heap) p) field_index.

Definition Code_AsInt (heap : OHeap) (co : Code) (field_index : Z) : Res Z :=
  h <- Code_field heap co field_index ;;
  cell <- cell_at heap h ;;
  _ <- assert (tag cell =? TAG_INT) ;;
  cell_i cell.

Definition Code_AsStr (heap : OHeap) (co : Code) (field_index : Z) : Res Str :=
  h <- Code_field heap co field_index ;;
  cell <- cell_at heap h ;;
  _ <- assert (tag cell =? TAG_STR) ;;
  v <- slab_view heap cell ;;
  Ok (mkStr v.1 v.2).

Definition Code_AsTuple (heap : OHeap) (co : Code) (field_index : Z) : Res Tuple :=
  h <- Code_field heap co field_index ;;
  cell <- cell_at heap h ;;
  _ <- assert (tag cell =? TAG_TUPLE) ;;
  v <- slab_view heap cell ;;
  Ok (mkTuple v.1 v.2).

Definition Code_argcount heap co := Code_AsInt heap co 1.
Definition Code_nlocals heap co := Code_AsInt heap co 2.
Definition Code_stacksize heap co := Code_AsInt heap co 3.
Definition Code_flags heap co := Code_AsInt heap co 4.
Definition Code_firstlineno heap co := Code_AsInt heap co 5.
Definition Code_name heap co := Code_AsStr heap co 6.
Definition Code_filename heap co := Code_AsStr heap co 7.
Definition Code_code heap co := Code_AsStr heap co 8.
Definition Code_names heap co := Code_AsTuple heap co 9.
Definition Code_varnames heap co := Code_AsTuple heap co 10.
Definition Code_consts heap co := Code_AsTuple heap co 11.

(** ** The loader *)

Definition kHeader : list byte := [Byte.x4f; Byte.x48; Byte.x50; Byte.x32].
Definition kHeaderLen : nat := 4.

(** [fread(buf, size, nmemb, f)]: the items read, their count, the rest of
    the stream. *)
Definition fread (size nmemb : nat) (f : list byte) : list byte * nat * list byte :=
  let k := Nat.min nmemb (length f / size)%nat in
  (take (k * size) f, k, drop (k * size) f).

(** [None] is [return false]. *)
Definition ReadHeader (f : list byte) : option (list byte) :=
  let '(buf, k, f') := fread kHeaderLen 1 f in
  if negb (k =? 1)%nat then None
  else if negb (bool_decide (buf = kHeader)) then None
  else Some f'.

(** One [Cell] record of the image. *)
Definition Cell_of_bytes (bs : list byte) : Cell :=
  mkCell (int16_le (take 2 bs))
         (nth 2 bs NUL)
         (nth 3 bs NUL)
         (take 4 (drop 4 bs))
         (Wire (take 8 (drop 8 bs))).

Fixpoint Cells_of_bytes (n : nat) (bs : list byte) : list Cell :=
  match n with
  | O => []
  | S n' => Cell_of_bytes (take 16 bs) :: Cells_of_bytes n' (drop 16 bs)
  end.

(** Lines 332-369 of [Load]: header, sizes, slab buffer, cell table.
    [Ok None] is [return false]. A negative size reaches [malloc] and
    [fread] as a huge [size_t]; that case is [Undef]. *)
Definition Load_read (f : list byte) : Res (option (list byte * Z * list Cell)) :=
  match ReadHeader f with
  | None => Ok None
  | Some f1 =>
    let '(b1, k1, f2) := fread 4 1 f1 in
    if negb (k1 =? 1)%nat then Ok None else
    let total_slab_size := int32_le b1 in
    let '(b2, k2, f3) := fread 4 1 f2 in
    if negb (k2 =? 1)%nat then Ok None else
    let num_cells := int32_le b2 in
    if total_slab_size <? 0 then Undef else
    let '(slabs, num_read, f4) := fread 1 (Z.to_nat total_slab_size) f3 in
    if negb (Z.of_nat num_read =? total_slab_size) then Ok None else
    if num_cells <? 0 then Undef else
    let '(raw, num_read', _) := fread 16 (Z.to_nat num_cells) f4 in
    if negb (Z.of_nat num_read' =? num_cells) then Ok None else
    Ok (Some (slabs, num_cells, Cells_of_bytes (Z.to_nat num_cells) raw))
  end.

(** Lines 371-383: one turn of the patching loop, at index [i]. *)
Definition Load_patch_at (cells : list Cell) (i : nat) : Res (list Cell) :=
  match cells !! i with
  | None => Undef
  | Some cell =>
    if slab_flag cell then
      slab_offset <- slab_wire_offset cell ;;
      Ok (<[i := mkCell (tag cell) (is_slab cell) (small_len cell)
                        (small_val cell) (Ptr slab_offset)]> cells)
    else Ok cells
  end.

Fixpoint Load_patch (cells : list Cell) (i : nat) (todo : nat) : Res (list Cell) :=
  match todo with
  | O => Ok cells
  | S todo' => cells' <- Load_patch_at cells i ;; Load_patch cells' (S i) todo'
  end.

(** Lines 385-396: the slab lengths are read back and logged. *)
Definition Load_log_at (slabs : list byte) (cells : list Cell) (i : nat) : Res unit :=
  match cells !! i with
  | None => Undef
  | Some cell =>
    if slab_flag cell then
      p <- cell_ptr cell ;;
      _ <- int32_at (ptr_add slabs p) 0 ;;
      Ok tt
    else Ok tt
  end.

Fixpoint Load_log (slabs : list byte) (cells : list Cell) (i : nat) (todo : nat) : Res unit :=
  match todo with
  | O => Ok tt
  | S todo' => _ <- Load_log_at slabs cells i ;; Load_log slabs cells (S i) todo'
  end.

(** [Load]: [Ok None] is [return false], [Ok (Some heap)] is [return true]
    with [*heap] initialised. *)
Definition Load (f : list byte) : Res (option OHeap) :=
  r <- Load_read f ;;
  match r with
  | None => Ok None
  | Some (slabs, num_cells, cells) =>
    cells' <- Load_patch cells 0 (Z.to_nat num_cells) ;;
    _ <- Load_log slabs cells' 0 (Z.to_nat num_cells) ;;
    Ok (Some (mkOHeap slabs num_cells cells'))
  end.

(** ** Frames *)

Inductive BlockType : Type :=
| Loop
| Except
| Finally
| With.

Record Block : Type := mkBlock {
  Block_type : BlockType;
  Block_level : Z;
  Block_handler : Z
}.

(** [locals_] is keyed by the characters of the name: [NameEq] is [strcmp],
    and [NameHash] depends on the same characters only. *)
Record Frame : Type := mkFrame {
  co_ : Code;
  value_stack_ : list Handle;
  block_stack_ : list Block;
  locals_ : gmap (list byte) Handle
}.

(** The constructor [Frame(co, heap)]. *)
Definition Frame_new (co : Code) : Frame := mkFrame co [] [] ∅.

(** The literal ["print"], with its terminator. *)
Definition print_lit : list byte :=
  [Byte.x70; Byte.x72; Byte.x69; Byte.x6e; Byte.x74; NUL].

(** [Frame::LoadName]; [heap] is the frame's [heap_]. The [log] call and the
    hash of [find] read [name] up to its terminator. *)
Definition Frame_LoadName (heap : OHeap) (frame : Frame) (h : Handle) : Res Handle :=
  name <- OHeap_AsStr0 heap h ;;
  match name with
  | None => Abort
  | Some name =>
    key <- cstr name ;;
    match locals_ frame !! key with
    | Some v => Ok v
    | None =>
      is_print <- strcmp_eq name print_lit ;;
      if is_print then Ok (-1) else Ok 0
    end
  end.

(** ** Vectors of handles *)

Definition back (v : list Handle) : Res Handle :=
  match list.last v with
  | Some x => Ok x
  | None => Undef
  end.

Definition pop_back (v : list Handle) : Res (list Handle) :=
  match v with
  | [] => Undef
  | _ => Ok (removelast v)
  end.

Definition push_back (v : list Handle) (x : Handle) : list Handle := v ++ [x].

(** [v[k]] *)
Definition vec_at (v : list Handle) (k : Z) : Res Handle :=
  if k <? 0 then Undef
  else match v !! Z.to_nat k with
       | Some x => Ok x
       | None => Undef
       end.

(** ** The native function *)

Definition LF : byte := Byte.x0a.

(** [fwrite(p, 1, n, stdout)]: the bytes written. *)
Definition fwrite (p : list byte) (n : Z) : Res (list byte) :=
  if n <? 0 then Undef else bytes_at p 0 (Z.to_nat n).

(** [func_print]: the signal, [*rets] and [stdout] afterwards. *)
Definition func_print (heap : OHeap) (args : Args) (rets : Rets) (out : list byte)
  : Res (Why * Rets * list byte) :=
  a0 <- vec_at args 0 ;;
  r <- OHeap_AsStr heap a0 ;;
  match r with
  | None => Ok (Exception, rets, out)
  | Some s =>
    w <- fwrite (Str_data s) (Str_len s) ;;
    Ok (Not, push_back rets 0, out ++ w ++ [LF] ++ [LF])
  end.

(** ** The virtual machine *)

(** [stdout_] is the process's standard output as far as [func_print]
    writes it; a [Frame*] is the position of the frame in [call_stack_]. *)
Record VM : Type := mkVM {
  heap_ : OHeap;
  call_stack_ : list Frame;
  stdout_ : list byte
}.

Definition VM_new (heap : OHeap) : VM := mkVM heap [] [].

Definition frame_at (vm : VM) (fp : nat) : Res Frame :=
  match call_stack_ vm !! fp with
  | Some f => Ok f
  | None => Undef
  end.

Definition with_value_stack (v : list Handle) (f : Frame) : Frame :=
  mkFrame (co_ f) v (block_stack_ f) (locals_ f).

Definition set_value_stack (vm : VM) (fp : nat) (v : list Handle) : VM :=
  mkVM (heap_ vm) (alter (with_value_stack v) fp (call_stack_ vm)) (stdout_ vm).

Definition set_stdout (vm : VM) (out : list byte) : VM :=
  mkVM (heap_ vm) (call_stack_ vm) out.

Fixpoint VM_DebugHandleArray (heap : OHeap) (handles : list Handle) : Res unit :=
  match handles with
  | [] => Ok tt
  | h :: hs =>
    _ <- (if h <? 0 then Ok tt
          else cell <- cell_at heap h ;; TagDebugString (tag cell)) ;;
    VM_DebugHandleArray heap hs
  end.

(** The numbers [opcode.h] gives the opcodes the interpreter names. *)
Record opcode_h : Type := mk_opcode_h {
  HAVE_ARGUMENT : Z;
  POP_TOP : Z;
  RETURN_VALUE : Z;
  LOAD_CONST : Z;
  LOAD_NAME : Z;
  CALL_FUNCTION : Z
}.

(** The locals of [RunFrame] that change in the loop. *)
Record Regs : Type := mkRegs {
  r_vm : VM;
  r_why : Why;
  r_i : Z;
  r_n : Z
}.

(** The popping loop of [CALL_FUNCTION], lines 608-611. *)
Fixpoint pop_args (num_args : nat) (args value_stack : list Handle)
  : Res (list Handle * list Handle) :=
  match num_args with
  | O => Ok (args, value_stack)
  | S k =>
    x <- back value_stack ;;
    value_stack' <- pop_back value_stack ;;
    pop_args k (push_back args x) value_stack'
  end.

Section Interp.

Variable ops : opcode_h.
Variable char_signed : bool.

(** A [char] converted to [int]. *)
Definition char_to_int (c : byte) : Z :=
  if char_signed then swrap 8 (byte.unsigned c) else byte.unsigned c.

(** Lines 568-577: the opcode, the operand when there is one, the cursor. *)
Definition fetch (bytecode : list byte) (i : Z) : Res (Z * option Z * Z) :=
  c <- char_at bytecode i ;;
  let op := byte.unsigned c in
  let i := i + 1 in
  if HAVE_ARGUMENT ops <=? op then
    c0 <- char_at bytecode i ;;
    c1 <- char_at bytecode (i + 1) ;;
    Ok (op, Some (char_to_int c0 + char_to_int c1 * 256), i + 2)
  else Ok (op, None, i).

(** [oparg] is assigned only when the opcode has an argument. *)
Definition use (oparg : option Z) : Res Z :=
  match oparg with
  | Some a => Ok a
  | None => Undef
  end.

(** The [CALL_FUNCTION] case, lines 595-652. *)
Definition do_CALL_FUNCTION (fp : nat) (st : Regs) (oparg : Z) : Res Regs :=
  let vm := r_vm st in
  let heap := heap_ vm in
  let num_args := Z.land oparg 255 in
  let num_kwargs := Z.land (Z.shiftr oparg 8) 255 in
  frame <- frame_at vm fp ;;
  _ <- VM_DebugHandleArray heap (value_stack_ frame) ;;
  popped <- pop_args (Z.to_nat num_args) [] (value_stack_ frame) ;;
  let args := popped.1 in
  _ <- VM_DebugHandleArray heap args ;;
  _ <- VM_DebugHandleArray heap popped.2 ;;
  func_handle <- back popped.2 ;;
  value_stack <- pop_back popped.2 ;;
  if func_handle <? 0 then
    r <- func_print heap args [] (stdout_ vm) ;;
    let '(why, rets, out) := r in
    let vm := set_stdout vm out in
    if negb (bool_decide (why = Not)) then
      Ok (mkRegs (set_value_stack vm fp value_stack) why (r_i st) (r_n st))
    else
      _ <- assert (length rets =? 1)%nat ;;
      r0 <- vec_at rets 0 ;;
      Ok (mkRegs (set_value_stack vm fp (push_back value_stack r0)) why
                 (r_i st) (r_n st))
  else
    let rets := push_back [] 0 in
    _ <- assert (length rets =? 1)%nat ;;
    r0 <- vec_at rets 0 ;;
    Ok (mkRegs (set_value_stack vm fp (push_back value_stack r0)) (r_why st)
               (r_i st) (r_n st)).

(** The [switch], lines 580-658; the cases are tried in the order they are
    written (the labels of a [switch] are distinct). *)
Definition dispatch (names consts : Tuple) (fp : nat) (st : Regs)
    (op : Z) (oparg : option Z) : Res Regs :=
  let vm := r_vm st in
  if op =? LOAD_CONST ops then
    a <- use oparg ;;
    frame <- frame_at vm fp ;;
    h <- int32_at (Tuple_handles consts) a ;;
    Ok (mkRegs (set_value_stack vm fp (push_back (value_stack_ frame) h))
               (r_why st) (r_i st) (r_n st))
  else if op =? LOAD_NAME ops then
    a <- use oparg ;;
    frame <- frame_at vm fp ;;
    name <- int32_at (Tuple_handles names) a ;;
    h <- Frame_LoadName (heap_ vm) frame name ;;
    Ok (mkRegs (set_value_stack vm fp (push_back (value_stack_ frame) h))
               (r_why st) (r_i st) (r_n st))
  else if op =? POP_TOP ops then
    frame <- frame_at vm fp ;;
    value_stack <- pop_back (value_stack_ frame) ;;
    Ok (mkRegs (set_value_stack vm fp value_stack) (r_why st) (r_i st) (r_n st))
  else if op =? CALL_FUNCTION ops then
    a <- use oparg ;;
    do_CALL_FUNCTION fp st a
  else if op =? RETURN_VALUE ops then
    Ok (mkRegs vm Return (r_i st) (r_n st))
  else Ok st.

(** One turn of the [while] loop, lines 568-659. *)
Definition RunFrame_iter (names consts : Tuple) (bytecode : list byte)
    (fp : nat) (st : Regs) : Res Regs :=
  d <- fetch bytecode (r_i st) ;;
  let '(op, oparg, i) := d in
  st' <- dispatch names consts fp (mkRegs (r_vm st) (r_why st) i (r_n st)) op oparg ;;
  Ok (mkRegs (r_vm st') (r_why st') (r_i st') (r_n st' + 1)).

(** The [while] loop, lines 567-660. [None]: [fuel] turns did not reach the
    end of the bytecode. *)
Fixpoint RunFrame_loop (fuel : nat) (names consts : Tuple) (bytecode : list byte)
    (num_bytes : Z) (fp : nat) (st : Regs) : option (Res Regs) :=
  if r_i st <? num_bytes then
    match fuel with
    | O => None
    | S fuel' =>
      match RunFrame_iter names consts bytecode fp st with
      | Ok st' => RunFrame_loop fuel' names consts bytecode num_bytes fp st'
      | Abort => Some Abort
      | Undef => Some Undef
      end
    end
  else Some (Ok st).

(** Lines 553-557: the constants are printed. *)
Fixpoint log_consts (heap : OHeap) (consts : Tuple) (i : Z) (todo : nat) : Res unit :=
  match todo with
  | O => Ok tt
  | S todo' =>
    h <- int32_at (Tuple_handles consts) i ;;
    _ <- OHeap_DebugString heap h ;;
    log_consts heap consts (i + 1) todo'
  end.

(** Lines 530-557: what [RunFrame] reads before the loop. *)
Definition RunFrame_enter (heap : OHeap) (co : Code) : Res (Tuple * Tuple * Str) :=
  _ <- Code_argcount heap co ;;
  _ <- Code_nlocals heap co ;;
  _ <- Code_stacksize heap co ;;
  _ <- Code_flags heap co ;;
  _ <- Code_firstlineno heap co ;;
  name <- Code_name heap co ;;
  _ <- cstr (Str_data name) ;;
  filename <- Code_filename heap co ;;
  _ <- cstr (Str_data filename) ;;
  code <- Code_code heap co ;;
  names <- Code_names heap co ;;
  varnames <- Code_varnames heap co ;;
  consts <- Code_consts heap co ;;
  _ <- log_consts heap consts 0 (Z.to_nat (Tuple_len consts)) ;;
  Ok (names, consts, code).

(** [VM::RunFrame]: the signal returned and the machine afterwards. Every
    turn of the loop moves the cursor forward, so [num_bytes] turns are
    enough ([RunFrame_loop_total]). *)
Definition VM_RunFrame (vm : VM) (fp : nat) : Res (Why * VM) :=
  frame <- frame_at vm fp ;;
  e <- RunFrame_enter (heap_ vm) (co_ frame) ;;
  let '(names, consts, code) := e in
  let num_bytes := Str_len code in
  let bytecode := Str_data code in
  match RunFrame_loop (Z.to_nat num_bytes) names consts bytecode num_bytes fp
                      (mkRegs vm Not 0 0) with
  | Some r => st <- r ;; Ok (r_why st, r_vm st)
  | None => Undef
  end.

(** [VM::RunMain] *)
Definition VM_RunMain (vm : VM) : Res (Why * VM) :=
  co <- OHeap_AsCode (heap_ vm) (OHeap_Last (heap_ vm)) ;;
  let frame := Frame_new co in
  let vm' := mkVM (heap_ vm) (call_stack_ vm ++ [frame]) (stdout_ vm) in
  VM_RunFrame vm' (length (call_stack_ vm)).

End Interp.

(** ** The hash and the equality of [NameLookup] *)

(** [NameHash]: the DJB hash of the characters before the terminator. The
    [int] is kept in 32 bits, wrapping around. *)
Fixpoint NameHash_from (char_signed : bool) (h : Z) (s : list byte) : Res Z :=
  match s with
  | [] => Undef
  | c :: s' =>
    if decide (c = NUL) then Ok h
    else NameHash_from char_signed
           (swrap 32 (Z.shiftl h 5 + h + char_to_int char_signed c)) s'
  end.

Definition NameHash (char_signed : bool) (s : list byte) : Res Z :=
  NameHash_from char_signed 5381 s.

(** [NameEq] *)
Definition NameEq (x y : list byte) : Res bool := strcmp_eq x y.

(** ** Heap images used as concrete inputs *)

(** The numbering of CPython 2.7's [opcode.h]. *)
Definition py27 : opcode_h := mk_opcode_h 90 1 83 100 101 131.

Definition le16 (z : Z) : list byte := le_split 2 z.
Definition le32 (z : Z) : list byte := le_split 4 z.
Definition le64 (z : Z) : list byte := le_split 8 z.
Definition zeros (n : nat) : list byte := repeat NUL n.

(** The sixteen bytes of an inline cell whose twelve payload bytes are
    [body], padded with zeros. *)
Definition inline_cell (tag small_len : Z) (body : list byte) : list byte :=
  le16 tag ++ [B 0; B small_len] ++ take 12 (body ++ zeros 12).

(** The sixteen bytes of a slab-backed cell. *)
Definition slab_cell (tag offset : Z) : list byte :=
  le16 tag ++ [B 1; B 0] ++ zeros 8 ++ le32 offset.

Definition image (slabs : list byte) (cells : list (list byte)) : list byte :=
  kHeader ++ le32 (Z.of_nat (length slabs)) ++ le32 (Z.of_nat (length cells))
  ++ slabs ++ concat cells.

Definition ascii_hello : list byte :=
  [Byte.x68; Byte.x65; Byte.x6c; Byte.x6c; Byte.x6f].
Definition ascii_print : list byte :=
  [Byte.x70; Byte.x72; Byte.x69; Byte.x6e; Byte.x74].
Definition ascii_main : list byte := [Byte.x6d; Byte.x61; Byte.x69; Byte.x6e].

(** A program image: cell 0 is None, 1 the Int 0, 2 the Str "main", 3 the
    Str "hello", 4 the Str [name], 5 the bytecode, 6 the names tuple
    (cell 4), 7 the empty varnames tuple, 8 the constants tuple (cell 3),
    9 the code object, whose field table is the only slab. *)
Definition program (name bytecode : list byte) : list byte :=
  image
    (concat (map le32 [11; 1; 1; 1; 1; 1; 2; 2; 5; 6; 7; 8]))
    [ inline_cell TAG_NONE 0 [];
      inline_cell TAG_INT 0 (zeros 4 ++ le64 0);
      inline_cell TAG_STR 4 ascii_main;
      inline_cell TAG_STR 5 ascii_hello;
      inline_cell TAG_STR (Z.of_nat (length name)) name;
      inline_cell TAG_STR (Z.of_nat (length bytecode)) bytecode;
      inline_cell TAG_TUPLE 1 (le32 4);
      inline_cell TAG_TUPLE 0 [];
      inline_cell TAG_TUPLE 1 (le32 3);
      slab_cell TAG_CODE 0 ].

(** [Load] followed by [VM::RunMain], as [main] does. *)
Definition run_image (ops : opcode_h) (char_signed : bool) (f : list byte)
  : Res (option (Why * VM)) :=
  r <- Load f ;;
  match r with
  | None => Ok None
  | Some heap => x <- VM_RunMain ops char_signed (VM_new heap) ;; Ok (Some x)
  end.

(** print("hello"): LOAD_NAME 0; LOAD_CONST 0; CALL_FUNCTION 1; RETURN_VALUE *)
Definition bc_hello : list byte :=
  [B 101; B 0; B 0; B 100; B 0; B 0; B 131; B 1; B 0; B 83].

(** RETURN_VALUE; LOAD_NAME 0; LOAD_CONST 0; CALL_FUNCTION 1 *)
Definition bc_return_first : list byte :=
  [B 83; B 101; B 0; B 0; B 100; B 0; B 0; B 131; B 1; B 0].

(** LOAD_NAME 0; LOAD_CONST 0; CALL_FUNCTION with operand bytes 1, 1;
    RETURN_VALUE: one positional argument, keyword count 1. *)
Definition bc_kwargs : list byte :=
  [B 101; B 0; B 0; B 100; B 0; B 0; B 131; B 1; B 1; B 83].

(** print(print): LOAD_NAME 0; LOAD_NAME 0; CALL_FUNCTION 1; RETURN_VALUE *)
Definition bc_print_print : list byte :=
  [B 101; B 0; B 0; B 101; B 0; B 0; B 131; B 1; B 0; B 83].

(** LOAD_CONST 0; RETURN_VALUE *)
Definition bc_return_const : list byte := [B 100; B 0; B 0; B 83].

(** LOAD_CONST 0; CALL_FUNCTION 0; RETURN_VALUE *)
Definition bc_call_const : list byte := [B 100; B 0; B 0; B 131; B 0; B 0; B 83].

(** Two code objects. Cells 0..9 are those of [program] with the bytecode
    [bc_return_const], so that cell 9 is a code object that returns its
    constant, cell 3. Cell 10 is the bytecode [bc_call_const], cell 11 the
    constants tuple (cell 9), cell 12 the code object [RunMain] runs. *)
Definition caller_program : list byte :=
  image
    (concat (map le32 [11; 1; 1; 1; 1; 1; 2; 2; 5; 6; 7; 8;
                       11; 1; 1; 1; 1; 1; 2; 2; 10; 6; 7; 11]))
    [ inline_cell TAG_NONE 0 [];
      inline_cell TAG_INT 0 (zeros 4 ++ le64 0);
      inline_cell TAG_STR 4 ascii_main;
      inline_cell TAG_STR 5 ascii_hello;
      inline_cell TAG_STR 5 ascii_print;
      inline_cell TAG_STR 4 bc_return_const;
      inline_cell TAG_TUPLE 1 (le32 4);
      inline_cell TAG_TUPLE 0 [];
      inline_cell TAG_TUPLE 1 (le32 3);
      slab_cell TAG_CODE 0;
      inline_cell TAG_STR 7 bc_call_const;
      inline_cell TAG_TUPLE 1 (le32 9);
      slab_cell TAG_CODE 48 ].

(** Cell 0 is a slab-backed Str of length 3 with a NUL in the middle,
    cell 1 the inline Int 42. *)
Definition str_image : list byte :=
  image (le32 3 ++ [Byte.x61; NUL; Byte.x62; NUL])
        [ slab_cell TAG_STR 0;
          inline_cell TAG_INT 0 (zeros 4 ++ le64 42) ].

(** The slab region has 8 bytes; the only cell is slab-backed at offset
    4096. *)
Definition bad_offset_image : list byte :=
  image (le32 3 ++ [Byte.x61; NUL; Byte.x62; NUL]) [ slab_cell TAG_STR 4096 ].

Definition str_slabs : list byte := le32 3 ++ [Byte.x61; NUL; Byte.x62; NUL].

(** The cell table [Load] reads from [str_image]. *)
Definition str_cells : list Cell :=
  [ mkCell TAG_STR (B 1) (B 0) (zeros 4) (Wire (zeros 4 ++ le32 0));
    mkCell TAG_INT (B 0) (B 0) (zeros 4) (Wire (le64 42)) ].

(** The cell [Load] reads from [bad_offset_image]. *)
Definition bad_offset_cell : Cell :=
  mkCell TAG_STR (B 1) (B 0) (zeros 4) (Wire (zeros 4 ++ le32 4096)).

(** The heap [Load] returns for an image it accepts. *)
Definition heap_of (f : list byte) : OHeap :=
  match Load f with
  | Ok (Some heap) => heap
  | _ => mkOHeap [] 0 []
  end.

(** ** Predicates used in the statements *)

(** What the loader does to one cell of the table. *)
Definition wire_offset (c : Cell) : Z :=
  match payload c with
  | Wire b => int32_le (take 4 (drop 4 b))
  | Ptr off => off
  end.

Definition patched (c : Cell) : Cell :=
  if slab_flag c
  then mkCell (tag c) (is_slab c) (small_len c) (small_val c) (Ptr (wire_offset c))
  else c.

(** The logical content of a Str cell: a slab is its 32-bit length followed
    by the bytes, an inline string has its length in [small_len] and its
    bytes in the cell. [data] runs to the end of the enclosing object. *)
Definition Str_of (heap : OHeap) (cell : Cell) (len : Z) (data : list byte) : Prop :=
  if slab_flag cell then
    exists p, payload cell = Ptr p /\ 0 <= p /\
      p + 4 <= Z.of_nat (length (slabs_ heap)) /\
      len = int32_le (take 4 (drop (Z.to_nat p) (slabs_ heap))) /\
      data = drop (Z.to_nat (p + 4)) (slabs_ heap)
  else len = byte.unsigned (small_len cell) /\ data = small_val_ptr cell.

(** A handle [DebugHandleArray] can print. *)
Definition printable (heap : OHeap) (h : Handle) : Prop :=
  h < 0 \/ exists cell, cell_at heap h = Ok cell /\ -8 < tag cell <= 0.

(** A cell as it comes from the image: its second union is eight raw
    bytes. *)
Definition wire8 (c : Cell) : Prop :=
  exists b, payload c = Wire b /\ length b = 8%nat.

(** The length word of the slab a slab-backed cell points at lies inside a
    slab buffer of [size] bytes. *)
Definition length_word_inside (size : Z) (c : Cell) : Prop :=
  slab_flag c = true -> 0 <= wire_offset c <= size - 4.

(** No frame of the call stack has a local binding. *)
Definition no_locals (vm : VM) : Prop :=
  Forall (fun f => locals_ f = ∅) (call_stack_ vm).

(** The machines that the public operations produce: a new [VM], the frame
    [RunMain] constructs and pushes, and the turns of the loop of
    [RunFrame]. *)
Inductive reachable (ops : opcode_h) (char_signed : bool) : VM -> Prop :=
| reach_new (heap : OHeap) :
    reachable ops char_signed (VM_new heap)
| reach_push (vm : VM) (co : Code) :
    reachable ops char_signed vm ->
    reachable ops char_signed
      (mkVM (heap_ vm) (call_stack_ vm ++ [Frame_new co]) (stdout_ vm))
| reach_iter (names consts : Tuple) (bytecode : list byte) (fp : nat)
    (st st' : Regs) :
    reachable ops char_signed (r_vm st) ->
    RunFrame_iter ops char_signed names consts bytecode fp st = Ok st' ->
    reachable ops char_signed (r_vm st').

(** In a heap of this shape every slab-backed cell holds a pointer whose
    length word is inside the slab buffer, and every other cell holds its
    eight raw bytes. *)
Definition slab_pointers_inside (heap : OHeap) : Prop :=
  Forall (fun c =>
            if slab_flag c
            then exists p, payload c = Ptr p /\
                   0 <= p <= Z.of_nat (length (slabs_ heap)) - 4
            else wire8 c)
         (cells_ heap).

(** [vm'] is [vm] but for the value stack of the frame at [fp] and for
    output added at the end. *)
Definition touches_only (fp : nat) (vm vm' : VM) : Prop :=
  exists (v : list Handle) (more : list byte),
    vm' = mkVM (heap_ vm) (alter (with_value_stack v) fp (call_stack_ vm))
               (stdout_ vm ++ more).

(** * Properties *)

(** ** Outcomes and raw memory *)

Lemma bind_Ok {A B : Type} (r : Res A) (k : A -> Res B) (b : B) :
  bind r k = Ok b <-> exists a, r = Ok a /\ k a = Ok b.
Proof.
  destruct r as [a| |]; simpl; split.
  - intros H. exists a. auto.
  - intros (a' & Ha & Hk). congruence.
  - discriminate.
  - intros (a' & Ha & _). discriminate.
  - discriminate.
  - intros (a' & Ha & _). discriminate.
Qed.

Lemma bytes_at_Ok (mem : list byte) (off : Z) (n : nat) :
  0 <= off -> off + Z.of_nat n <= Z.of_nat (length mem) ->
  bytes_at mem off n = Ok (take n (drop (Z.to_nat off) mem)).
Proof.
  intros H0 H1. unfold bytes_at.
  destruct (0 <=? off) eqn:E0; [| lia].
  destruct (off + Z.of_nat n <=? Z.of_nat (length mem)) eqn:E1; [| lia].
  reflexivity.
Qed.

Lemma ptr_add_in (p : list byte) (off : Z) :
  0 <= off <= Z.of_nat (length p) -> ptr_add p off = drop (Z.to_nat off) p.
Proof.
  intros H. unfold ptr_add.
  destruct (0 <=? off) eqn:E0; [| lia].
  destruct (off <=? Z.of_nat (length p)) eqn:E1; [| lia].
  reflexivity.
Qed.

Lemma vec_at_0 (x : Handle) (v : list Handle) : vec_at (x :: v) 0 = Ok x.
Proof. reflexivity. Qed.

(** A string that is terminated and has no NUL before its terminator is
    read back by [cstr] as it is. *)
Lemma cstr_terminated (s rest : list byte) :
  Forall (fun c => c <> NUL) s -> cstr (s ++ NUL :: rest) = Ok s.
Proof.
  induction 1 as [| c s Hc Hs IH]; simpl.
  - destruct (decide (NUL = NUL)) as [_ | n]; [reflexivity | contradiction].
  - destruct (decide (c = NUL)) as [e | _]; [contradiction |].
    rewrite IH. reflexivity.
Qed.

Lemma cstr_print_lit : cstr print_lit = Ok ascii_print.
Proof. reflexivity. Qed.

(** [strcmp(name, "print") == 0] compares the characters. *)
Lemma strcmp_eq_print (name key : list byte) :
  cstr name = Ok key ->
  strcmp_eq name print_lit = Ok (bool_decide (key = ascii_print)).
Proof.
  intros H. unfold strcmp_eq. rewrite H, cstr_print_lit. reflexivity.
Qed.

(** ** The typed accessors of [OHeap] *)

(** [AsStr] tests the tag it is named after. *)
Lemma OHeap_AsStr_false (heap : OHeap) (h : Handle) (cell : Cell) :
  cell_at heap h = Ok cell -> tag cell <> TAG_STR ->
  OHeap_AsStr heap h = Ok None.
Proof.
  intros Hc Ht. unfold OHeap_AsStr. rewrite Hc. simpl.
  destruct (tag cell =? TAG_STR) eqn:E; [lia | reflexivity].
Qed.

Lemma slab_view_Str_of (heap : OHeap) (cell : Cell) (len : Z) (data : list byte) :
  Str_of heap cell len data -> slab_view heap cell = Ok (len, data).
Proof.
  unfold Str_of, slab_view. destruct (slab_flag cell).
  - intros (p & Hp & H0 & H4 & -> & ->).
    unfold cell_ptr. rewrite Hp. simpl.
    rewrite !ptr_add_in by lia.
    unfold int32_at. rewrite bytes_at_Ok; [| lia |].
    + simpl. reflexivity.
    + rewrite length_drop. lia.
  - intros [-> ->]. reflexivity.
Qed.

Lemma OHeap_AsStr_true (heap : OHeap) (h : Handle) (cell : Cell)
    (len : Z) (data : list byte) :
  cell_at heap h = Ok cell -> tag cell = TAG_STR -> Str_of heap cell len data ->
  OHeap_AsStr heap h = Ok (Some (mkStr len data)).
Proof.
  intros Hc Ht Hs. unfold OHeap_AsStr. rewrite Hc. simpl.
  rewrite Ht. simpl. rewrite (slab_view_Str_of _ _ _ _ Hs). reflexivity.
Qed.

(** [AsInt] tests the Str tag: an Int cell is refused. *)
Lemma OHeap_AsInt_false (heap : OHeap) (h : Handle) (cell : Cell) :
  cell_at heap h = Ok cell -> tag cell <> TAG_STR ->
  OHeap_AsInt heap h = Ok None.
Proof.
  intros Hc Ht. unfold OHeap_AsInt. rewrite Hc. simpl.
  destruct (tag cell =? TAG_STR) eqn:E; [lia | reflexivity].
Qed.

(** A Str cell is accepted by [AsInt], which returns its raw payload. *)
Lemma OHeap_AsInt_true (heap : OHeap) (h : Handle) (cell : Cell) (b : list byte) :
  cell_at heap h = Ok cell -> tag cell = TAG_STR ->
  payload cell = Wire b -> length b = 8%nat ->
  OHeap_AsInt heap h = Ok (Some (int64_le b)).
Proof.
  intros Hc Ht Hb Hlen. unfold OHeap_AsInt. rewrite Hc. cbn [bind].
  rewrite Ht. cbn [Z.eqb Pos.eqb negb TAG_STR]. unfold cell_i. rewrite Hb.
  rewrite bytes_at_Ok by lia. change (Z.to_nat 0) with 0%nat.
  rewrite drop_0, take_ge by lia. reflexivity.
Qed.

(** The characters [AsStr0] points at are the data of the view [AsStr]
    returns. *)
Lemma OHeap_AsStr0_Str_of (heap : OHeap) (h : Handle) (cell : Cell)
    (len : Z) (data : list byte) :
  cell_at heap h = Ok cell -> tag cell = TAG_STR -> Str_of heap cell len data ->
  OHeap_AsStr0 heap h = Ok (Some data).
Proof.
  intros Hc Ht Hs. unfold OHeap_AsStr0. rewrite Hc. cbn [bind].
  rewrite Ht. cbn [Z.eqb Pos.eqb negb TAG_STR]. unfold Str_of in Hs.
  destruct (slab_flag cell).
  - destruct Hs as (p & Hp & H0 & H4 & _ & ->).
    unfold cell_ptr. rewrite Hp. cbn [bind]. rewrite ptr_add_in by lia.
    reflexivity.
  - destruct Hs as [_ ->]. reflexivity.
Qed.

(** C4, at the failing input: in the heap loaded from the image
    [program ascii_print bc_hello], cell 1 has the Int tag and [AsInt]
    returns false for it; cell 3 has the Str tag and [AsInt] returns true,
    reading the inline characters as the integer. [AsStr] accepts cell 3 and
    refuses cell 1. *)
Theorem OHeap_AsInt_tests_Str_tag :
  let heap := heap_of (program ascii_print bc_hello) in
  (tag <$> cells_ heap !! 1%nat) = Some TAG_INT /\
  OHeap_AsInt heap 1 = Ok None /\
  (tag <$> cells_ heap !! 3%nat) = Some TAG_STR /\
  OHeap_AsInt heap 3 = Ok (Some 111) /\
  OHeap_AsStr heap 3 = Ok (Some (mkStr 5 (ascii_hello ++ zeros 7))) /\
  OHeap_AsStr heap 1 = Ok None.
Proof. vm_compute. repeat split; reflexivity. Qed.

(** ** The native function *)

(** C5, as amended: when the first argument is the handle of a cell of
    the heap whose tag is not the Str tag, [func_print] returns Exception,
    leaves [*rets] as it was (empty when it was passed empty) and writes
    nothing. *)
Theorem func_print_type_mismatch (heap : OHeap) (args : Args) (rets : Rets)
    (out : list byte) (a0 : Handle) (rest : list Handle) (cell : Cell) :
  args = a0 :: rest ->
  cell_at heap a0 = Ok cell ->
  tag cell <> TAG_STR ->
  func_print heap args rets out = Ok (Exception, rets, out).
Proof.
  intros -> Hc Ht. unfold func_print. rewrite vec_at_0. simpl.
  rewrite (OHeap_AsStr_false _ _ _ Hc Ht). reflexivity.
Qed.

Lemma func_print_type_mismatch_witness :
  func_print (heap_of str_image) [1] [] [] = Ok (Exception, [], []).
Proof.
  eapply (func_print_type_mismatch (heap_of str_image) [1] [] [] 1 []).
  - reflexivity.
  - vm_compute. reflexivity.
  - vm_compute. discriminate.
Defined.

(** C5 fails as stated. The handle -1, which [LoadName] returns for the
    name "print", refers to no cell, so to no Str cell; [func_print] does
    not test for it and reads [cells_[-1]], outside the cell table: the
    outcome is not Exception. It is what print(print) runs into. *)
Lemma func_print_native_handle_argument :
  let heap := heap_of (program ascii_print bc_print_print) in
  Frame_LoadName heap (Frame_new (mkCode 9)) 4 = Ok (-1)
  /\ cell_at heap (-1) = Undef
  /\ func_print heap [-1] [] [] = Undef
  /\ func_print heap [-1] [] [] <> Ok (Exception, [], [])
  /\ run_image py27 true (program ascii_print bc_print_print) = Undef
  /\ run_image py27 false (program ascii_print bc_print_print) = Undef.
Proof.
  vm_compute. repeat split; try reflexivity; discriminate.
Qed.

(** C6: when the first argument is a Str cell whose view is [len] bytes of
    [data], inline or in a slab, [func_print] writes the first [len] bytes
    of [data], whatever they are, then two line feeds; it returns Not and
    appends the one handle 0 to [*rets]. *)
Theorem func_print_writes_len_bytes (heap : OHeap) (args : Args) (rets : Rets)
    (out : list byte) (a0 : Handle) (rest : list Handle) (cell : Cell)
    (len : Z) (data : list byte) :
  args = a0 :: rest ->
  cell_at heap a0 = Ok cell ->
  tag cell = TAG_STR ->
  Str_of heap cell len data ->
  0 <= len <= Z.of_nat (length data) ->
  func_print heap args rets out
    = Ok (Not, rets ++ [0], out ++ take (Z.to_nat len) data ++ [LF; LF])
  /\ Z.of_nat (length (take (Z.to_nat len) data)) = len.
Proof.
  intros -> Hc Ht Hs Hlen. split.
  - unfold func_print. rewrite vec_at_0. simpl.
    rewrite (OHeap_AsStr_true _ _ _ _ _ Hc Ht Hs). simpl.
    unfold fwrite. destruct (len <? 0) eqn:E; [lia |].
    rewrite bytes_at_Ok by lia. simpl. reflexivity.
  - rewrite length_take. lia.
Qed.

Lemma func_print_writes_len_bytes_witness :
  func_print (heap_of str_image) [0] [] []
    = Ok (Not, [0], [Byte.x61; NUL; Byte.x62; LF; LF]).
Proof.
  eapply (func_print_writes_len_bytes (heap_of str_image) [0] [] [] 0 []
            _ 3 [Byte.x61; NUL; Byte.x62; NUL]).
  - reflexivity.
  - vm_compute. reflexivity.
  - vm_compute. reflexivity.
  - unfold Str_of.
    replace (slab_flag _) with true by (vm_compute; reflexivity).
    exists 0. repeat split; try (vm_compute; reflexivity); vm_compute; discriminate.
  - vm_compute. split; discriminate.
Defined.

(** An inline string is printed the same way. *)
Example func_print_inline :
  func_print (heap_of (program ascii_print bc_hello)) [3] [] []
    = Ok (Not, [0], ascii_hello ++ [LF; LF]).
Proof. vm_compute. reflexivity. Qed.

(** ** Name resolution *)

(** C7: for a Str handle [h] whose characters are [key], [LoadName] returns
    the handle bound to [key] in the local-binding table when there is one,
    also when [key] is "print"; without a binding it returns -1 when [key]
    is "print" and 0 otherwise. *)
Theorem Frame_LoadName_priority (heap : OHeap) (frame : Frame) (h : Handle)
    (name key : list byte) :
  OHeap_AsStr0 heap h = Ok (Some name) ->
  cstr name = Ok key ->
  (forall v, locals_ frame !! key = Some v -> Frame_LoadName heap frame h = Ok v)
  /\ (locals_ frame !! key = None -> key = ascii_print ->
      Frame_LoadName heap frame h = Ok (-1))
  /\ (locals_ frame !! key = None -> key <> ascii_print ->
      Frame_LoadName heap frame h = Ok 0).
Proof.
  intros Hname Hkey. unfold Frame_LoadName. rewrite Hname. cbn [bind].
  rewrite Hkey. cbn [bind]. rewrite (strcmp_eq_print _ _ Hkey).
  repeat split.
  - intros v Hv. rewrite Hv. reflexivity.
  - intros Hn He. rewrite Hn. cbn [bind].
    rewrite bool_decide_eq_true_2 by assumption. reflexivity.
  - intros Hn He. rewrite Hn. cbn [bind].
    rewrite bool_decide_eq_false_2 by assumption. reflexivity.
Qed.

(** In the heap of [program ascii_print bc_hello], cell 4 is the name
    "print" and cell 3 the name "hello"; a frame that binds "print" to 7
    resolves it to 7, a frame without bindings to -1, and "hello" to 0. *)
Lemma Frame_LoadName_priority_witness :
  let heap := heap_of (program ascii_print bc_hello) in
  Frame_LoadName heap (mkFrame (mkCode 9) [] [] {[ ascii_print := 7 ]}) 4 = Ok 7
  /\ Frame_LoadName heap (Frame_new (mkCode 9)) 4 = Ok (-1)
  /\ Frame_LoadName heap (Frame_new (mkCode 9)) 3 = Ok 0.
Proof.
  intros heap. split; [| split].
  - eapply (Frame_LoadName_priority heap _ 4 (ascii_print ++ zeros 7) ascii_print).
    + vm_compute. reflexivity.
    + vm_compute. reflexivity.
    + vm_compute. reflexivity.
  - eapply (Frame_LoadName_priority heap _ 4 (ascii_print ++ zeros 7) ascii_print).
    + vm_compute. reflexivity.
    + vm_compute. reflexivity.
    + vm_compute. reflexivity.
    + reflexivity.
  - eapply (Frame_LoadName_priority heap _ 3 (ascii_hello ++ zeros 7) ascii_hello).
    + vm_compute. reflexivity.
    + vm_compute. reflexivity.
    + vm_compute. reflexivity.
    + vm_compute. discriminate.
Defined.

(** With an empty table the first case never applies. *)
Lemma Frame_LoadName_no_locals (heap : OHeap) (frame : Frame) (h : Handle)
    (name key : list byte) :
  locals_ frame = ∅ ->
  OHeap_AsStr0 heap h = Ok (Some name) ->
  cstr name = Ok key ->
  Frame_LoadName heap frame h
    = Ok (if bool_decide (key = ascii_print) then -1 else 0).
Proof.
  intros He Hname Hkey. unfold Frame_LoadName. rewrite Hname. cbn [bind].
  rewrite Hkey. cbn [bind]. rewrite He, lookup_empty.
  rewrite (strcmp_eq_print _ _ Hkey). cbn [bind].
  destruct (bool_decide (key = ascii_print)); reflexivity.
Qed.

(** ** Fetch and decode *)

Lemma char_at_Ok (p : list byte) (k : nat) (c : byte) :
  p !! k = Some c -> char_at p (Z.of_nat k) = Ok c.
Proof.
  intros H. unfold char_at.
  pose proof (lookup_lt_Some _ _ _ H) as Hlt.
  rewrite bytes_at_Ok by lia. simpl. rewrite Nat2Z.id.
  rewrite (drop_S _ _ _ H). reflexivity.
Qed.

(** An opcode below the threshold has no operand; the cursor moves by 1. *)
Lemma fetch_no_operand (ops : opcode_h) (char_signed : bool)
    (bytecode : list byte) (k : nat) (c : byte) :
  bytecode !! k = Some c ->
  byte.unsigned c < HAVE_ARGUMENT ops ->
  fetch ops char_signed bytecode (Z.of_nat k)
    = Ok (byte.unsigned c, None, Z.of_nat k + 1).
Proof.
  intros Hc Hlt. unfold fetch. rewrite (char_at_Ok _ _ _ Hc). simpl.
  destruct (HAVE_ARGUMENT ops <=? byte.unsigned c) eqn:E; [lia | reflexivity].
Qed.

(** An opcode at or above the threshold is followed by two operand bytes,
    each converted from [char] to [int]; the cursor moves by 3. *)
Lemma fetch_operand (ops : opcode_h) (char_signed : bool) (bytecode : list byte)
    (k : nat) (c c0 c1 : byte) :
  bytecode !! k = Some c ->
  bytecode !! S k = Some c0 ->
  bytecode !! S (S k) = Some c1 ->
  HAVE_ARGUMENT ops <= byte.unsigned c ->
  fetch ops char_signed bytecode (Z.of_nat k)
    = Ok (byte.unsigned c,
          Some (char_to_int char_signed c0 + char_to_int char_signed c1 * 256),
          Z.of_nat k + 3).
Proof.
  intros Hc H0 H1 Hge.
  unfold fetch. rewrite (char_at_Ok _ _ _ Hc). cbn [bind].
  destruct (HAVE_ARGUMENT ops <=? byte.unsigned c) eqn:E; [| lia].
  replace (Z.of_nat k + 1) with (Z.of_nat (S k)) by lia.
  rewrite (char_at_Ok _ _ _ H0). cbn [bind].
  replace (Z.of_nat (S k) + 1) with (Z.of_nat (S (S k))) by lia.
  rewrite (char_at_Ok _ _ _ H1). cbn [bind].
  repeat (f_equal; try lia).
Qed.

(** Where plain [char] is unsigned the operand is the 16-bit little-endian
    number of the next two bytes; the cursor moves by 3. *)
Lemma fetch_operand_unsigned_char (ops : opcode_h) (bytecode : list byte)
    (k : nat) (c c0 c1 : byte) :
  bytecode !! k = Some c ->
  bytecode !! S k = Some c0 ->
  bytecode !! S (S k) = Some c1 ->
  HAVE_ARGUMENT ops <= byte.unsigned c ->
  fetch ops false bytecode (Z.of_nat k)
    = Ok (byte.unsigned c, Some (byte.unsigned c0 + byte.unsigned c1 * 256),
          Z.of_nat k + 3)
  /\ 0 <= byte.unsigned c0 + byte.unsigned c1 * 256 <= 65535.
Proof.
  intros Hc H0 H1 Hge. split.
  - exact (fetch_operand ops false bytecode k c c0 c1 Hc H0 H1 Hge).
  - pose proof (byte.unsigned_range c0). pose proof (byte.unsigned_range c1).
    change (2 ^ 8) with 256 in *. lia.
Qed.

(** Where plain [char] is signed each operand byte is sign-extended. *)
Lemma fetch_operand_signed_char (ops : opcode_h) (bytecode : list byte)
    (k : nat) (c c0 c1 : byte) :
  bytecode !! k = Some c ->
  bytecode !! S k = Some c0 ->
  bytecode !! S (S k) = Some c1 ->
  HAVE_ARGUMENT ops <= byte.unsigned c ->
  fetch ops true bytecode (Z.of_nat k)
    = Ok (byte.unsigned c,
          Some (swrap 8 (byte.unsigned c0) + swrap 8 (byte.unsigned c1) * 256),
          Z.of_nat k + 3).
Proof.
  intros Hc H0 H1 Hge.
  exact (fetch_operand ops true bytecode k c c0 c1 Hc H0 H1 Hge).
Qed.

Lemma swrap_8_byte (c : byte) :
  swrap 8 (byte.unsigned c)
  = if 128 <=? byte.unsigned c then byte.unsigned c - 256 else byte.unsigned c.
Proof.
  pose proof (byte.unsigned_range c) as Hr. change (2 ^ 8) with 256 in Hr.
  unfold swrap. change (2 ^ (8 - 1)) with 128. change (2 ^ 8) with 256.
  destruct (128 <=? byte.unsigned c) eqn:E.
  - replace (byte.unsigned c + 128) with (byte.unsigned c - 128 + 1 * 256) by lia.
    rewrite Z_mod_plus_full, Z.mod_small by lia. lia.
  - rewrite Z.mod_small by lia. lia.
Qed.

(** The sign-extended operand is the unsigned 16-bit number only when both
    operand bytes are below 0x80. *)
Lemma signed_operand_differs (c0 c1 : byte) :
  128 <= byte.unsigned c0 \/ 128 <= byte.unsigned c1 ->
  swrap 8 (byte.unsigned c0) + swrap 8 (byte.unsigned c1) * 256
  <> byte.unsigned c0 + byte.unsigned c1 * 256.
Proof.
  intros H. rewrite !swrap_8_byte.
  destruct (128 <=? byte.unsigned c0) eqn:E0;
    destruct (128 <=? byte.unsigned c1) eqn:E1; lia.
Qed.

(** C9, at the failing input: where plain [char] is signed, the operand
    bytes 0xFF 0x00 after LOAD_CONST are read as -1, not 255; with the high
    bit in the second byte, 0x00 0x80, as -32768. The same bytes are read
    as 255 where [char] is unsigned. *)
Theorem fetch_sign_extends_operand :
  fetch py27 true [B 100; B 255; B 0] 0 = Ok (100, Some (-1), 3)
  /\ fetch py27 true [B 100; B 0; B 128] 0 = Ok (100, Some (-32768), 3)
  /\ fetch py27 false [B 100; B 255; B 0] 0 = Ok (100, Some 255, 3).
Proof. vm_compute. repeat split; reflexivity. Qed.

(** ** CALL_FUNCTION *)

Lemma land_255_low (x y : Z) : Z.land (x + y * 256) 255 = Z.land x 255.
Proof.
  change 255 with (Z.ones 8). rewrite !Z.land_ones by lia.
  change (2 ^ 8) with 256. apply Z_mod_plus_full.
Qed.

(** The CALL_FUNCTION case uses the low byte of its operand only. *)
Lemma do_CALL_FUNCTION_low_byte (fp : nat) (st : Regs) (x y y' : Z) :
  do_CALL_FUNCTION fp st (x + y * 256) = do_CALL_FUNCTION fp st (x + y' * 256).
Proof.
  unfold do_CALL_FUNCTION. rewrite !land_255_low. reflexivity.
Qed.

(** C3, as amended: the second operand byte, the keyword count, takes no
    part in the call. A turn of the loop at a CALL_FUNCTION instruction with
    operand bytes [c0], [c1] does what it does on the same bytecode with
    0 in the place of [c1]. *)
Theorem CALL_FUNCTION_ignores_kwargs (ops : opcode_h) (char_signed : bool)
    (names consts : Tuple) (bytecode : list byte) (fp : nat) (st : Regs)
    (k : nat) (c c0 c1 : byte) :
  r_i st = Z.of_nat k ->
  bytecode !! k = Some c ->
  bytecode !! S k = Some c0 ->
  bytecode !! S (S k) = Some c1 ->
  byte.unsigned c = CALL_FUNCTION ops ->
  HAVE_ARGUMENT ops <= CALL_FUNCTION ops ->
  CALL_FUNCTION ops <> LOAD_CONST ops ->
  CALL_FUNCTION ops <> LOAD_NAME ops ->
  CALL_FUNCTION ops <> POP_TOP ops ->
  RunFrame_iter ops char_signed names consts bytecode fp st
  = RunFrame_iter ops char_signed names consts (<[S (S k) := NUL]> bytecode) fp st.
Proof.
  intros Hi Hc H0 H1 Hop Hge Hn1 Hn2 Hn3.
  pose proof (lookup_lt_Some _ _ _ H1) as Hlt.
  unfold RunFrame_iter. rewrite Hi.
  rewrite (fetch_operand ops char_signed bytecode k c c0 c1) by (assumption || lia).
  rewrite (fetch_operand ops char_signed (<[S (S k) := NUL]> bytecode) k c c0 NUL).
  - cbn [bind]. unfold dispatch. rewrite Hop.
    destruct (CALL_FUNCTION ops =? LOAD_CONST ops) eqn:E1; [lia |].
    destruct (CALL_FUNCTION ops =? LOAD_NAME ops) eqn:E2; [lia |].
    destruct (CALL_FUNCTION ops =? POP_TOP ops) eqn:E3; [lia |].
    rewrite Z.eqb_refl. cbn [use bind].
    rewrite (do_CALL_FUNCTION_low_byte fp _ _ _ (char_to_int char_signed NUL)).
    reflexivity.
  - rewrite list_lookup_insert_ne by lia. exact Hc.
  - rewrite list_lookup_insert_ne by lia. exact H0.
  - apply list_lookup_insert_eq. exact Hlt.
  - lia.
Qed.

Lemma CALL_FUNCTION_ignores_kwargs_witness :
  let heap := heap_of (program ascii_print bc_kwargs) in
  let vm := mkVM heap [mkFrame (mkCode 9) [-1; 3] [] ∅] [] in
  let names := mkTuple 1 (le32 4 ++ zeros 8) in
  let consts := mkTuple 1 (le32 3 ++ zeros 8) in
  RunFrame_iter py27 true names consts (bc_kwargs ++ zeros 2) 0 (mkRegs vm Not 6 2)
  = RunFrame_iter py27 true names consts (bc_hello ++ zeros 2) 0 (mkRegs vm Not 6 2).
Proof.
  intros heap vm names consts.
  apply (CALL_FUNCTION_ignores_kwargs py27 true names consts (bc_kwargs ++ zeros 2)
           0 (mkRegs vm Not 6 2) 6 (B 131) (B 1) (B 1));
    try reflexivity; vm_compute; discriminate.
Defined.

(** C3 fails as stated: with keyword count 1 in the operand, the call of
    print is made, "hello" is written and the run ends with Return. *)
Lemma CALL_FUNCTION_kwargs_not_rejected :
  exists vm,
    run_image py27 true (program ascii_print bc_kwargs) = Ok (Some (Return, vm))
    /\ stdout_ vm = ascii_hello ++ [LF; LF]
    /\ value_stack_ <$> call_stack_ vm = [[0]].
Proof. eexists. vm_compute. repeat split; reflexivity. Qed.

Lemma back_snoc (v : list Handle) (x : Handle) : back (v ++ [x]) = Ok x.
Proof. unfold back. rewrite last_snoc. reflexivity. Qed.

Lemma pop_back_snoc (v : list Handle) (x : Handle) : pop_back (v ++ [x]) = Ok v.
Proof.
  unfold pop_back. destruct (v ++ [x]) eqn:E.
  - destruct v; discriminate.
  - rewrite <- E, removelast_last. reflexivity.
Qed.

(** The popping loop takes the arguments from the top: the last one pushed
    comes first in [args]. *)
Lemma pop_args_app (pushed below acc : list Handle) :
  pop_args (length pushed) acc (below ++ pushed) = Ok (acc ++ rev pushed, below).
Proof.
  revert acc. induction pushed as [| x p IH] using rev_ind; intros acc.
  - simpl. rewrite !app_nil_r. reflexivity.
  - rewrite length_app, Nat.add_comm. cbn [length Nat.add pop_args].
    rewrite app_assoc, back_snoc, pop_back_snoc. cbn [bind].
    rewrite IH. unfold push_back. rewrite rev_unit, <- app_assoc. reflexivity.
Qed.

Lemma VM_DebugHandleArray_Ok (heap : OHeap) (handles : list Handle) :
  Forall (printable heap) handles -> VM_DebugHandleArray heap handles = Ok tt.
Proof.
  induction 1 as [| h hs Hh _ IH]; [reflexivity |].
  cbn [VM_DebugHandleArray]. destruct (h <? 0) eqn:E.
  - cbn [bind]. exact IH.
  - destruct Hh as [Hneg | (cell & Hc & Ht)]; [lia |].
    rewrite Hc. cbn [bind]. unfold TagDebugString.
    destruct (0 <=? - tag cell) eqn:E0; [| lia].
    destruct (- tag cell <? 8) eqn:E1; [| lia].
    cbn [andb bind]. exact IH.
Qed.

(** C8, as amended: for a non-negative callee handle no frame is made and
    nothing is run. With the callee and then the arguments on the value
    stack, CALL_FUNCTION removes them and pushes the handle 0; the signal,
    the cursor, the output, the heap and the number of frames on the call
    stack stay as they were. *)
Theorem do_CALL_FUNCTION_compiled_callee (fp : nat) (st : Regs) (oparg : Z)
    (frame : Frame) (below pushed : list Handle) (callee : Handle) :
  frame_at (r_vm st) fp = Ok frame ->
  value_stack_ frame = below ++ callee :: pushed ->
  Z.of_nat (length pushed) = Z.land oparg 255 ->
  0 <= callee ->
  Forall (printable (heap_ (r_vm st))) (value_stack_ frame) ->
  do_CALL_FUNCTION fp st oparg
    = Ok (mkRegs (set_value_stack (r_vm st) fp (below ++ [0]))
                 (r_why st) (r_i st) (r_n st))
  /\ length (call_stack_ (set_value_stack (r_vm st) fp (below ++ [0])))
     = length (call_stack_ (r_vm st))
  /\ stdout_ (set_value_stack (r_vm st) fp (below ++ [0])) = stdout_ (r_vm st)
  /\ heap_ (set_value_stack (r_vm st) fp (below ++ [0])) = heap_ (r_vm st).
Proof.
  intros Hf Hstack Hlen Hcallee Hprint. repeat split.
  - unfold do_CALL_FUNCTION. rewrite Hf. cbn [bind].
    rewrite (VM_DebugHandleArray_Ok _ _ Hprint). cbn [bind].
    rewrite Hstack in *. rewrite <- Hlen, Nat2Z.id.
    change (below ++ callee :: pushed) with (below ++ [callee] ++ pushed) in *.
    rewrite app_assoc in *. rewrite pop_args_app. cbn [bind fst snd app].
    apply Forall_app in Hprint as [Hbelow Hpushed].
    rewrite (VM_DebugHandleArray_Ok _ (rev pushed)) by (apply Forall_rev; exact Hpushed).
    cbn [bind]. rewrite (VM_DebugHandleArray_Ok _ _ Hbelow). cbn [bind].
    rewrite back_snoc, pop_back_snoc. cbn [bind].
    destruct (callee <? 0) eqn:E; [lia |]. reflexivity.
  - unfold set_value_stack. cbn [call_stack_]. apply length_alter.
Qed.

Lemma do_CALL_FUNCTION_compiled_callee_witness :
  let heap := heap_of caller_program in
  let vm := mkVM heap [mkFrame (mkCode 12) [0; 9; 3] [] ∅] [] in
  do_CALL_FUNCTION 0 (mkRegs vm Not 6 1) 1
  = Ok (mkRegs (mkVM heap [mkFrame (mkCode 12) [0; 0] [] ∅] []) Not 6 1).
Proof.
  intros heap vm.
  refine (proj1 (do_CALL_FUNCTION_compiled_callee 0 (mkRegs vm Not 6 1) 1
                   (mkFrame (mkCode 12) [0; 9; 3] [] ∅) [0] [3] 9 _ _ _ _ _)).
  - reflexivity.
  - reflexivity.
  - reflexivity.
  - lia.
  - assert (Hp : forall h, In h [0; 9; 3] -> printable heap h).
    { intros h [<- | [<- | [<- | []]]]; right; eexists;
        (split; [vm_compute; reflexivity |]); vm_compute;
        (split; [reflexivity | discriminate]). }
    apply Forall_forall. intros h Hin. apply Hp, Hin.
Defined.

(** C8 fails as stated. In the heap of [caller_program] cell 9 is a code
    object which, run in a frame of its own, ends in Return with cell 3 on
    top of its value stack. [RunMain] runs cell 12, which pushes 9 and
    executes CALL_FUNCTION 0: afterwards the call stack holds the one frame
    of cell 12, and the value on its stack is 0, not 3. *)
Lemma CALL_FUNCTION_does_not_run_callee :
  let heap := heap_of caller_program in
  (exists vm,
      VM_RunFrame py27 true (mkVM heap [Frame_new (mkCode 9)] []) 0
        = Ok (Return, vm)
      /\ value_stack_ <$> call_stack_ vm = [[3]])
  /\ (exists vm,
      VM_RunMain py27 true (VM_new heap) = Ok (Return, vm)
      /\ co_ <$> call_stack_ vm = [mkCode 12]
      /\ value_stack_ <$> call_stack_ vm = [[0]]).
Proof.
  split; eexists; vm_compute; repeat split; reflexivity.
Qed.

(** ** The interpreter loop *)

(** The loop test looks at the cursor only: whatever the signal is, a
    turn that succeeds is followed by the rest of the loop. *)
Lemma RunFrame_loop_step (ops : opcode_h) (char_signed : bool)
    (names consts : Tuple) (bytecode : list byte) (num_bytes : Z) (fp : nat)
    (fuel : nat) (st st' : Regs) :
  r_i st < num_bytes ->
  RunFrame_iter ops char_signed names consts bytecode fp st = Ok st' ->
  RunFrame_loop ops char_signed (S fuel) names consts bytecode num_bytes fp st
  = RunFrame_loop ops char_signed fuel names consts bytecode num_bytes fp st'.
Proof.
  intros Hlt Hiter. cbn [RunFrame_loop].
  destruct (r_i st <? num_bytes) eqn:E; [| lia]. rewrite Hiter. reflexivity.
Qed.

(** print("hello") as a program: "hello" and two line feeds are written,
    the result of print is left on the stack and the run ends in Return. *)
Example run_hello (char_signed : bool) :
  exists vm,
    run_image py27 char_signed (program ascii_print bc_hello)
      = Ok (Some (Return, vm))
    /\ stdout_ vm = ascii_hello ++ [LF; LF]
    /\ value_stack_ <$> call_stack_ vm = [[0]].
Proof.
  destruct char_signed; eexists; vm_compute; repeat split; reflexivity.
Qed.

(** C1, at the failing input: the bytecode RETURN_VALUE; LOAD_NAME 0;
    LOAD_CONST 0; CALL_FUNCTION 1 sets the signal to Return in its first
    instruction, yet the three instructions after it are executed: "hello"
    is written, and the signal [RunFrame] returns is Not. *)
Theorem RunFrame_runs_past_Return (char_signed : bool) :
  exists vm,
    run_image py27 char_signed (program ascii_print bc_return_first)
      = Ok (Some (Not, vm))
    /\ stdout_ vm = ascii_hello ++ [LF; LF]
    /\ value_stack_ <$> call_stack_ vm = [[0]].
Proof.
  destruct char_signed; eexists; vm_compute; repeat split; reflexivity.
Qed.

Ltac res_inv H :=
  repeat match type of H with
  | bind _ _ = Ok _ =>
      let x := fresh "x" in let Hx := fresh "Hx" in
      apply bind_Ok in H as (x & Hx & H)
  | (if ?b then _ else _) = Ok _ => destruct b eqn:?
  | (let '(_, _) := ?p in _) = Ok _ => destruct p eqn:?
  | Ok _ = Ok _ => injection H as H
  | Abort = Ok _ => discriminate H
  | Undef = Ok _ => discriminate H
  end.

Lemma set_value_stack_no_locals (vm : VM) (fp : nat) (v : list Handle) :
  no_locals vm -> no_locals (set_value_stack vm fp v).
Proof.
  unfold no_locals, set_value_stack. cbn [call_stack_]. intros H.
  apply Forall_alter; [exact H |]. intros f _ Hf. exact Hf.
Qed.

Lemma set_stdout_no_locals (vm : VM) (out : list byte) :
  no_locals vm -> no_locals (set_stdout vm out).
Proof. intros H. exact H. Qed.

Lemma do_CALL_FUNCTION_no_locals (fp : nat) (st st' : Regs) (oparg : Z) :
  do_CALL_FUNCTION fp st oparg = Ok st' ->
  no_locals (r_vm st) -> heap_ (r_vm st') = heap_ (r_vm st) /\ no_locals (r_vm st').
Proof.
  intros H Hinv. unfold do_CALL_FUNCTION in H. res_inv H; subst st'; cbn [r_vm];
    (split; [reflexivity |]);
    apply set_value_stack_no_locals; try apply set_stdout_no_locals; exact Hinv.
Qed.

Lemma dispatch_no_locals (ops : opcode_h) (names consts : Tuple) (fp : nat)
    (st st' : Regs) (op : Z) (oparg : option Z) :
  dispatch ops names consts fp st op oparg = Ok st' ->
  no_locals (r_vm st) -> heap_ (r_vm st') = heap_ (r_vm st) /\ no_locals (r_vm st').
Proof.
  intros H Hinv. unfold dispatch in H.
  destruct (op =? LOAD_CONST ops);
    [| destruct (op =? LOAD_NAME ops);
       [| destruct (op =? POP_TOP ops);
          [| destruct (op =? CALL_FUNCTION ops);
             [| destruct (op =? RETURN_VALUE ops)]]]].
  - res_inv H. subst st'. cbn [r_vm]. split; [reflexivity |].
    apply set_value_stack_no_locals, Hinv.
  - res_inv H. subst st'. cbn [r_vm]. split; [reflexivity |].
    apply set_value_stack_no_locals, Hinv.
  - res_inv H. subst st'. cbn [r_vm]. split; [reflexivity |].
    apply set_value_stack_no_locals, Hinv.
  - apply bind_Ok in H as (a & _ & H).
    exact (do_CALL_FUNCTION_no_locals _ _ _ _ H Hinv).
  - injection H as <-. split; [reflexivity | exact Hinv].
  - injection H as <-. split; [reflexivity | exact Hinv].
Qed.

Lemma RunFrame_iter_no_locals (ops : opcode_h) (char_signed : bool)
    (names consts : Tuple) (bytecode : list byte) (fp : nat) (st st' : Regs) :
  RunFrame_iter ops char_signed names consts bytecode fp st = Ok st' ->
  no_locals (r_vm st) -> no_locals (r_vm st').
Proof.
  intros H Hinv. unfold RunFrame_iter in H.
  apply bind_Ok in H as (d & _ & H). destruct d as [[op oparg] i].
  apply bind_Ok in H as (st1 & Hd & H). injection H as <-. cbn [r_vm].
  exact (proj2 (dispatch_no_locals _ _ _ _ _ _ _ _ Hd Hinv)).
Qed.

Lemma reachable_no_locals (ops : opcode_h) (char_signed : bool) (vm : VM) :
  reachable ops char_signed vm -> no_locals vm.
Proof.
  induction 1 as [heap | vm co _ IH | names consts bytecode fp st st' _ IH Hiter].
  - constructor.
  - unfold no_locals in *. cbn [call_stack_].
    apply Forall_app. split; [exact IH |]. repeat constructor.
  - exact (RunFrame_iter_no_locals _ _ _ _ _ _ _ _ Hiter IH).
Qed.

(** C10: in every machine the operations can reach, every frame has an
    empty local-binding table; [LoadName] therefore returns -1 for "print"
    and 0 for every other name, and a LOAD_NAME whose name is not "print"
    pushes the handle 0. *)
Theorem reachable_LOAD_NAME (ops : opcode_h) (char_signed : bool) (vm : VM)
    (fp : nat) (frame : Frame) :
  reachable ops char_signed vm ->
  frame_at vm fp = Ok frame ->
  locals_ frame = ∅
  /\ (forall (h : Handle) (name key : list byte),
        OHeap_AsStr0 (heap_ vm) h = Ok (Some name) ->
        cstr name = Ok key ->
        Frame_LoadName (heap_ vm) frame h
          = Ok (if bool_decide (key = ascii_print) then -1 else 0))
  /\ (forall (names consts : Tuple) (st : Regs) (a h : Z) (name key : list byte),
        r_vm st = vm ->
        LOAD_NAME ops <> LOAD_CONST ops ->
        int32_at (Tuple_handles names) a = Ok h ->
        OHeap_AsStr0 (heap_ vm) h = Ok (Some name) ->
        cstr name = Ok key ->
        key <> ascii_print ->
        dispatch ops names consts fp st (LOAD_NAME ops) (Some a)
          = Ok (mkRegs (set_value_stack vm fp (value_stack_ frame ++ [0]))
                       (r_why st) (r_i st) (r_n st))).
Proof.
  intros Hreach Hframe.
  assert (Hloc : locals_ frame = ∅).
  { apply reachable_no_locals in Hreach. unfold no_locals in Hreach.
    unfold frame_at in Hframe.
    destruct (call_stack_ vm !! fp) as [f |] eqn:E; [| discriminate].
    injection Hframe as <-.
    exact (proj1 (Forall_lookup _ _) Hreach _ _ E). }
  split; [exact Hloc | split].
  - intros h name key Hname Hkey.
    exact (Frame_LoadName_no_locals _ _ _ _ _ Hloc Hname Hkey).
  - intros names consts st a h name key Hvm Hne Hh Hname Hkey Hnp.
    unfold dispatch. destruct (LOAD_NAME ops =? LOAD_CONST ops) eqn:E; [lia |].
    rewrite Z.eqb_refl. cbn [use bind]. rewrite Hvm, Hframe. cbn [bind].
    rewrite Hh. cbn [bind].
    rewrite (Frame_LoadName_no_locals _ _ _ _ _ Hloc Hname Hkey).
    rewrite bool_decide_eq_false_2 by exact Hnp. reflexivity.
Qed.

Lemma reachable_LOAD_NAME_witness :
  let heap := heap_of (program ascii_hello bc_hello) in
  let vm := mkVM heap [Frame_new (mkCode 9)] [] in
  dispatch py27 (mkTuple 1 (le32 4 ++ zeros 8)) (mkTuple 1 (le32 3 ++ zeros 8))
           0 (mkRegs vm Not 3 0) 101 (Some 0)
  = Ok (mkRegs (mkVM heap [mkFrame (mkCode 9) [0] [] ∅] []) Not 3 0).
Proof.
  intros heap vm.
  destruct (reachable_LOAD_NAME py27 true vm 0 (Frame_new (mkCode 9))
              (reach_push py27 true (VM_new heap) (mkCode 9)
                 (reach_new py27 true heap))
              eq_refl) as (_ & _ & H).
  apply (H (mkTuple 1 (le32 4 ++ zeros 8)) (mkTuple 1 (le32 3 ++ zeros 8))
           (mkRegs vm Not 3 0) 0 4 (ascii_hello ++ zeros 7) ascii_hello).
  - reflexivity.
  - vm_compute. discriminate.
  - vm_compute. reflexivity.
  - vm_compute. reflexivity.
  - vm_compute. reflexivity.
  - vm_compute. discriminate.
Defined.

(** Every turn of the loop moves the cursor forward. *)
Lemma fetch_advances (ops : opcode_h) (char_signed : bool) (bytecode : list byte)
    (i i' op : Z) (oparg : option Z) :
  fetch ops char_signed bytecode i = Ok (op, oparg, i') -> i < i'.
Proof.
  intros H. unfold fetch in H. res_inv H; inversion H; lia.
Qed.

Lemma do_CALL_FUNCTION_cursor (fp : nat) (st st' : Regs) (oparg : Z) :
  do_CALL_FUNCTION fp st oparg = Ok st' -> r_i st' = r_i st.
Proof.
  intros H. unfold do_CALL_FUNCTION in H. res_inv H; subst st'; reflexivity.
Qed.

Lemma dispatch_cursor (ops : opcode_h) (names consts : Tuple) (fp : nat)
    (st st' : Regs) (op : Z) (oparg : option Z) :
  dispatch ops names consts fp st op oparg = Ok st' -> r_i st' = r_i st.
Proof.
  intros H. unfold dispatch in H.
  destruct (op =? LOAD_CONST ops);
    [| destruct (op =? LOAD_NAME ops);
       [| destruct (op =? POP_TOP ops);
          [| destruct (op =? CALL_FUNCTION ops);
             [| destruct (op =? RETURN_VALUE ops)]]]].
  - res_inv H. subst st'. reflexivity.
  - res_inv H. subst st'. reflexivity.
  - res_inv H. subst st'. reflexivity.
  - apply bind_Ok in H as (a & _ & H). exact (do_CALL_FUNCTION_cursor _ _ _ _ H).
  - injection H as <-. reflexivity.
  - injection H as <-. reflexivity.
Qed.

Lemma RunFrame_iter_advances (ops : opcode_h) (char_signed : bool)
    (names consts : Tuple) (bytecode : list byte) (fp : nat) (st st' : Regs) :
  RunFrame_iter ops char_signed names consts bytecode fp st = Ok st' ->
  r_i st < r_i st'.
Proof.
  intros H. unfold RunFrame_iter in H.
  apply bind_Ok in H as (d & Hf & H). destruct d as [[op oparg] i].
  apply bind_Ok in H as (st1 & Hd & H). injection H as <-. cbn [r_i].
  apply dispatch_cursor in Hd. cbn [r_i] in Hd. rewrite Hd.
  exact (fetch_advances _ _ _ _ _ _ _ Hf).
Qed.

(** The loop ends: as many turns as there are bytes left are enough. *)
Lemma RunFrame_loop_total (ops : opcode_h) (char_signed : bool)
    (names consts : Tuple) (bytecode : list byte) (num_bytes : Z) (fp : nat)
    (fuel : nat) (st : Regs) :
  num_bytes - r_i st <= Z.of_nat fuel ->
  exists r,
    RunFrame_loop ops char_signed fuel names consts bytecode num_bytes fp st
      = Some r.
Proof.
  revert st. induction fuel as [| fuel IH]; intros st Hfuel;
    cbn [RunFrame_loop]; destruct (r_i st <? num_bytes) eqn:E;
    try (eexists; reflexivity).
  - lia.
  - destruct (RunFrame_iter ops char_signed names consts bytecode fp st)
      as [st' | |] eqn:Hiter; try (eexists; reflexivity).
    apply IH. apply RunFrame_iter_advances in Hiter. lia.
Qed.

Lemma VM_RunFrame_loop_ends (ops : opcode_h) (char_signed : bool)
    (names consts : Tuple) (code : Str) (fp : nat) (vm : VM) :
  RunFrame_loop ops char_signed (Z.to_nat (Str_len code)) names consts
                (Str_data code) (Str_len code) fp (mkRegs vm Not 0 0) <> None.
Proof.
  destruct (RunFrame_loop_total ops char_signed names consts (Str_data code)
              (Str_len code) fp (Z.to_nat (Str_len code)) (mkRegs vm Not 0 0))
    as [r Hr]; [cbn [r_i]; lia | congruence].
Qed.

(** ** The loader *)

Lemma fread_length (size nmemb : nat) (f buf rest : list byte) (k : nat) :
  fread size nmemb f = (buf, k, rest) -> length buf = (k * size)%nat.
Proof.
  unfold fread. intros H. injection H as <- <- _.
  rewrite length_take. apply Nat.min_l.
  etransitivity; [apply Nat.mul_le_mono_r, Nat.le_min_r |].
  rewrite Nat.mul_comm. apply Nat.Div0.mul_div_le.
Qed.

Lemma Cells_of_bytes_wire8 (m : nat) (raw : list byte) :
  length raw = (m * 16)%nat ->
  length (Cells_of_bytes m raw) = m /\ Forall wire8 (Cells_of_bytes m raw).
Proof.
  revert raw. induction m as [| m IH]; intros raw Hlen; cbn [Cells_of_bytes].
  - split; [reflexivity | constructor].
  - destruct (IH (drop 16 raw)) as [IHl IHw]; [rewrite length_drop; lia |].
    split; [cbn [length]; rewrite IHl; reflexivity |].
    constructor; [| exact IHw].
    eexists. split; [reflexivity |].
    rewrite length_take, length_drop, length_take. lia.
Qed.

(** What [Load] has read when it reaches the patching loop: a cell count
    that is not negative and that many cells, each in its wire form. *)
Lemma Load_read_shape (f slabs : list byte) (n : Z) (cells : list Cell) :
  Load_read f = Ok (Some (slabs, n, cells)) ->
  0 <= n /\ length cells = Z.to_nat n /\ Forall wire8 cells.
Proof.
  unfold Load_read. intros H.
  destruct (ReadHeader f) as [f1 |]; [| discriminate].
  destruct (fread 4 1 f1) as [[b1 k1] f2].
  destruct (negb (k1 =? 1)%nat); [discriminate |].
  destruct (fread 4 1 f2) as [[b2 k2] f3].
  destruct (negb (k2 =? 1)%nat); [discriminate |].
  destruct (int32_le b1 <? 0); [discriminate |].
  destruct (fread 1 (Z.to_nat (int32_le b1)) f3) as [[sl nr] f4].
  destruct (negb (Z.of_nat nr =? int32_le b1)); [discriminate |].
  destruct (int32_le b2 <? 0) eqn:Hneg; [discriminate |].
  destruct (fread 16 (Z.to_nat (int32_le b2)) f4) as [[raw nr'] f5] eqn:Hraw.
  destruct (negb (Z.of_nat nr' =? int32_le b2)) eqn:Hnr; [discriminate |].
  injection H as _ <- <-.
  apply fread_length in Hraw.
  apply negb_false_iff, Z.eqb_eq in Hnr.
  assert (Hm : nr' = Z.to_nat (int32_le b2)) by lia. subst nr'.
  destruct (Cells_of_bytes_wire8 _ _ Hraw) as [Hl Hw].
  split; [lia | split; assumption].
Qed.

Lemma slab_wire_offset_wire8 (c : Cell) :
  wire8 c -> slab_wire_offset c = Ok (wire_offset c).
Proof.
  intros (b & Hb & Hlen). unfold slab_wire_offset, wire_offset. rewrite Hb.
  rewrite bytes_at_Ok by lia. reflexivity.
Qed.

(** One turn of the patching loop puts the pointer in place, whatever the
    offset is. *)
Lemma Load_patch_at_wire8 (cells : list Cell) (i : nat) (c : Cell) :
  cells !! i = Some c -> wire8 c ->
  Load_patch_at cells i = Ok (<[i := patched c]> cells).
Proof.
  intros Hc Hw. unfold Load_patch_at, patched. rewrite Hc.
  destruct (slab_flag c).
  - rewrite (slab_wire_offset_wire8 _ Hw). reflexivity.
  - rewrite list_insert_id by exact Hc. reflexivity.
Qed.

(** The invariant of the patching loop: at index [i] the cells below [i]
    are patched and the others are as read. *)
Lemma Load_patch_steps (cells0 : list Cell) (todo i : nat) :
  Forall wire8 cells0 ->
  (i + todo)%nat = length cells0 ->
  Load_patch ((patched <$> take i cells0) ++ drop i cells0) i todo
    = Ok (patched <$> cells0).
Proof.
  intros Hw. revert i. induction todo as [| todo IH]; intros i Hlen;
    cbn [Load_patch].
  - rewrite take_ge, drop_ge by lia. rewrite app_nil_r. reflexivity.
  - destruct (lookup_lt_is_Some_2 cells0 i) as [c Hc]; [lia |].
    assert (Hpre : length (patched <$> take i cells0) = i).
    { rewrite length_fmap, length_take. lia. }
    rewrite (Load_patch_at_wire8 _ i c).
    + cbn [bind]. rewrite (drop_S _ _ _ Hc).
      rewrite insert_app_r_alt by lia. rewrite Hpre, Nat.sub_diag.
      cbn [insert list_insert].
      rewrite <- (IH (S i)) by lia. f_equal.
      rewrite (take_S_r _ _ _ Hc), fmap_app, <- app_assoc. reflexivity.
    + rewrite lookup_app_r by lia. rewrite Hpre, Nat.sub_diag.
      rewrite lookup_drop, Nat.add_0_r. exact Hc.
    + exact (proj1 (Forall_lookup _ _) Hw _ _ Hc).
Qed.

Lemma Load_patch_all (cells : list Cell) :
  Forall wire8 cells ->
  Load_patch cells 0 (length cells) = Ok (patched <$> cells).
Proof.
  intros Hw. exact (Load_patch_steps cells (length cells) 0 Hw eq_refl).
Qed.

Lemma Load_log_patched (slabs : list byte) (cells : list Cell) (todo i : nat) :
  Forall (length_word_inside (Z.of_nat (length slabs))) cells ->
  (i + todo)%nat = length cells ->
  Load_log slabs (patched <$> cells) i todo = Ok tt.
Proof.
  intros Hin. revert i. induction todo as [| todo IH]; intros i Hlen;
    cbn [Load_log]; [reflexivity |].
  destruct (lookup_lt_is_Some_2 cells i) as [c Hc]; [lia |].
  unfold Load_log_at. rewrite list_lookup_fmap, Hc. cbn [fmap option_fmap option_map].
  pose proof (proj1 (Forall_lookup _ _) Hin _ _ Hc) as Hr.
  unfold length_word_inside in Hr. unfold patched.
  destruct (slab_flag c) eqn:Hflag.
  - unfold slab_flag in *. cbn [is_slab]. rewrite Hflag.
    cbn [cell_ptr payload bind]. specialize (Hr eq_refl).
    rewrite ptr_add_in by lia. unfold int32_at.
    rewrite bytes_at_Ok; [| lia | rewrite length_drop; lia].
    cbn [bind]. apply IH. lia.
  - rewrite Hflag. cbn [bind]. apply IH. lia.
Qed.

(** C2, as amended: [Load] does not check offsets. Once the header, the
    sizes, the slab buffer and the cell table are read, the patching loop
    replaces the offset of every slab-backed cell by the pointer at that
    offset from the slab buffer, whatever the offset is, and [Load] does
    not return false; when the length word of every slab-backed cell lies
    inside the slab buffer, [Load] returns true with the patched heap. *)
Theorem Load_patches_unchecked (f slabs : list byte) (n : Z) (cells : list Cell) :
  Load_read f = Ok (Some (slabs, n, cells)) ->
  Load_patch cells 0 (Z.to_nat n) = Ok (patched <$> cells)
  /\ Load f <> Ok None
  /\ (Forall (length_word_inside (Z.of_nat (length slabs))) cells ->
      Load f = Ok (Some (mkOHeap slabs n (patched <$> cells)))).
Proof.
  intros Hread. destruct (Load_read_shape _ _ _ _ Hread) as (Hn & Hlen & Hw).
  assert (Hpatch : Load_patch cells 0 (Z.to_nat n) = Ok (patched <$> cells)).
  { rewrite <- Hlen. exact (Load_patch_all _ Hw). }
  split; [exact Hpatch | split].
  - unfold Load. rewrite Hread. cbn [bind]. rewrite Hpatch. cbn [bind].
    destruct (Load_log slabs (patched <$> cells) 0 (Z.to_nat n));
      cbn [bind]; discriminate.
  - intros Hin. unfold Load. rewrite Hread. cbn [bind]. rewrite Hpatch.
    cbn [bind]. rewrite <- Hlen.
    rewrite (Load_log_patched _ _ _ 0 Hin eq_refl). reflexivity.
Qed.

Lemma Load_patches_unchecked_witness :
  Load str_image
  = Ok (Some (mkOHeap str_slabs 2
                [ mkCell TAG_STR (B 1) (B 0) (zeros 4) (Ptr 0);
                  mkCell TAG_INT (B 0) (B 0) (zeros 4) (Wire (le64 42)) ])).
Proof.
  refine (proj2 (proj2 (Load_patches_unchecked str_image str_slabs 2 str_cells _)) _).
  - vm_compute. reflexivity.
  - assert (Hc : forall c, In c str_cells ->
                 length_word_inside (Z.of_nat (length str_slabs)) c).
    { intros c [<- | [<- | []]]; unfold length_word_inside; vm_compute;
        intros H; try discriminate H; split; discriminate. }
    apply Forall_forall. exact Hc.
Defined.

(** C2 fails as stated. The image [bad_offset_image] has a slab buffer of
    8 bytes and one slab-backed cell whose offset is 4096. The patching
    loop accepts it and stores the pointer 4096 bytes from the buffer;
    [Load] does not return false: it goes on to read the slab length through
    that pointer, outside the buffer. *)
Lemma Load_accepts_offset_out_of_range :
  Load_read bad_offset_image = Ok (Some (str_slabs, 1, [bad_offset_cell]))
  /\ length str_slabs = 8%nat
  /\ slab_flag bad_offset_cell = true
  /\ slab_wire_offset bad_offset_cell = Ok 4096
  /\ Load_patch [bad_offset_cell] 0 1
     = Ok [mkCell TAG_STR (B 1) (B 0) (zeros 4) (Ptr 4096)]
  /\ Load bad_offset_image = Undef
  /\ Load bad_offset_image <> Ok None.
Proof.
  vm_compute. repeat split; try reflexivity; discriminate.
Qed.

(** * Further properties of the loader *)

Lemma fread_one (size : nat) (f : list byte) :
  (0 < size)%nat ->
  fread size 1 f
  = if (size <=? length f)%nat then (take size f, 1%nat, drop size f)
    else ([], 0%nat, f).
Proof.
  intros Hs. unfold fread. destruct (size <=? length f)%nat eqn:E.
  - apply Nat.leb_le in E.
    assert (H1 : (1 <= length f / size)%nat).
    { apply Nat.div_le_lower_bound; lia. }
    rewrite Nat.min_l by exact H1. rewrite Nat.mul_1_l. reflexivity.
  - apply Nat.leb_gt in E. rewrite Nat.div_small by exact E.
    rewrite Nat.min_r by lia. reflexivity.
Qed.

Lemma fread_exact (size nmemb : nat) (a b : list byte) :
  (0 < size)%nat -> length a = (nmemb * size)%nat ->
  fread size nmemb (a ++ b) = (a, nmemb, b).
Proof.
  intros Hs Ha. unfold fread.
  assert (Hk : Nat.min nmemb (length (a ++ b) / size) = nmemb).
  { apply Nat.min_l. apply Nat.div_le_lower_bound; [lia |].
    rewrite length_app, Ha. lia. }
  rewrite Hk, <- Ha. rewrite take_app_length, drop_app_length. reflexivity.
Qed.

Lemma fread_short (size nmemb : nat) (f buf rest : list byte) (k : nat) :
  (0 < size)%nat -> (length f < nmemb * size)%nat ->
  fread size nmemb f = (buf, k, rest) -> (k < nmemb)%nat.
Proof.
  intros Hs Hlt H. unfold fread in H. injection H as _ <- _.
  apply Nat.min_lt_iff. right.
  apply Nat.Div0.div_lt_upper_bound. lia.
Qed.

Lemma ReadHeader_Some (f rest : list byte) :
  ReadHeader f = Some rest <-> f = kHeader ++ rest.
Proof.
  unfold ReadHeader, kHeaderLen. rewrite fread_one by lia.
  destruct (4 <=? length f)%nat eqn:E; cbn [Nat.eqb negb]; split.
  - destruct (bool_decide (take 4 f = kHeader)) eqn:Eb; cbn [negb];
      [| discriminate].
    apply bool_decide_eq_true_1 in Eb. intros H. injection H as <-.
    rewrite <- Eb. symmetry. apply take_drop.
  - intros ->. change (kHeader ++ rest) with ([Byte.x4f; Byte.x48; Byte.x50; Byte.x32] ++ rest).
    cbn [take drop app]. rewrite bool_decide_eq_true_2 by reflexivity.
    reflexivity.
  - discriminate.
  - intros ->. apply Nat.leb_gt in E. rewrite length_app in E.
    cbn [length kHeader] in E. lia.
Qed.

(** The header is accepted exactly when the stream starts with the four
    characters OHP2, and what follows them is what is left to read; a
    stream that is shorter or starts otherwise is refused. *)
Theorem ReadHeader_iff (f : list byte) :
  (forall rest, ReadHeader f = Some rest <-> f = kHeader ++ rest)
  /\ (ReadHeader f = None <-> take 4 f <> kHeader).
Proof.
  split; [exact (ReadHeader_Some f) |].
  destruct (ReadHeader f) as [rest |] eqn:E; split.
  - discriminate.
  - intros Hne. apply ReadHeader_Some in E. subst f. contradiction Hne.
    reflexivity.
  - intros _ Hk. pose proof (proj2 (ReadHeader_Some f (drop 4 f))) as H.
    rewrite <- Hk, take_drop in H. rewrite H in E by reflexivity.
    discriminate E.
  - reflexivity.
Qed.

Lemma ReadHeader_None (f : list byte) :
  ReadHeader f = None -> Load f = Ok None.
Proof. intros H. unfold Load, Load_read. rewrite H. reflexivity. Qed.

(** [Load] returns false unless the stream is the four header characters
    followed by at least the eight bytes of the two sizes. *)
Theorem Load_short_or_bad_header (f : list byte) :
  (forall rest, f = kHeader ++ rest -> (length rest < 8)%nat) ->
  Load f = Ok None.
Proof.
  intros H. destruct (ReadHeader f) as [f1 |] eqn:Eh;
    [| exact (ReadHeader_None _ Eh)].
  specialize (H f1 (proj1 (ReadHeader_Some _ _) Eh)).
  unfold Load, Load_read. rewrite Eh. rewrite fread_one by lia.
  destruct (4 <=? length f1)%nat eqn:E1; [| reflexivity].
  cbn [Nat.eqb negb]. rewrite fread_one by lia.
  destruct (4 <=? length (drop 4 f1))%nat eqn:E2; [| reflexivity].
  apply Nat.leb_le in E2. rewrite length_drop in E2. lia.
Qed.

Lemma Load_short_or_bad_header_witness :
  Load [] = Ok None
  /\ Load [Byte.x4f; Byte.x48; Byte.x50; Byte.x31] = Ok None
  /\ Load (kHeader ++ le32 0 ++ [NUL; NUL; NUL]) = Ok None.
Proof.
  split; [| split]; apply Load_short_or_bad_header; intros rest H.
  - destruct rest; discriminate H.
  - discriminate H.
  - apply app_inv_head in H. subst rest. vm_compute. lia.
Defined.

Lemma fread_bytes (nmemb : nat) (f : list byte) :
  fread 1 nmemb f
  = (take (Nat.min nmemb (length f)) f, Nat.min nmemb (length f),
     drop (Nat.min nmemb (length f)) f).
Proof. unfold fread. rewrite Nat.div_1_r, Nat.mul_1_r. reflexivity. Qed.

(** What [Load] reads from a stream that has the header and the two
    sizes. *)
Lemma Load_read_sizes (b1 b2 rest : list byte) :
  length b1 = 4%nat -> length b2 = 4%nat ->
  Load_read (kHeader ++ b1 ++ b2 ++ rest)
  = if int32_le b1 <? 0 then Undef else
    let '(slabs, num_read, f4) := fread 1 (Z.to_nat (int32_le b1)) rest in
    if negb (Z.of_nat num_read =? int32_le b1) then Ok None else
    if int32_le b2 <? 0 then Undef else
    let '(raw, num_read', _) := fread 16 (Z.to_nat (int32_le b2)) f4 in
    if negb (Z.of_nat num_read' =? int32_le b2) then Ok None else
    Ok (Some (slabs, int32_le b2,
              Cells_of_bytes (Z.to_nat (int32_le b2)) raw)).
Proof.
  intros H1 H2. unfold Load_read.
  rewrite (proj2 (ReadHeader_Some _ _) eq_refl).
  rewrite (fread_exact 4 1 b1) by (lia || exact H1). cbn [Nat.eqb negb].
  rewrite (fread_exact 4 1 b2) by (lia || exact H2). reflexivity.
Qed.

(** A stream that ends before the slab region or the cell table is
    complete is refused: [Load] returns false. *)
Theorem Load_truncated (b1 b2 rest : list byte) :
  length b1 = 4%nat -> length b2 = 4%nat ->
  0 <= int32_le b1 -> 0 <= int32_le b2 ->
  Z.of_nat (length rest) < int32_le b1 + 16 * int32_le b2 ->
  Load (kHeader ++ b1 ++ b2 ++ rest) = Ok None.
Proof.
  intros H1 H2 Hs Hn Hlen. unfold Load.
  rewrite (Load_read_sizes b1 b2 rest H1 H2).
  destruct (int32_le b1 <? 0) eqn:E1; [lia |]. rewrite fread_bytes.
  destruct (Z.of_nat (Nat.min (Z.to_nat (int32_le b1)) (length rest))
            =? int32_le b1) eqn:Er; cbn [negb]; [| reflexivity].
  apply Z.eqb_eq in Er.
  destruct (int32_le b2 <? 0) eqn:E2; [lia |].
  destruct (fread 16 (Z.to_nat (int32_le b2))
              (drop (Nat.min (Z.to_nat (int32_le b1)) (length rest)) rest))
    as [[raw nr] f5] eqn:Ef.
  apply fread_short in Ef; [| lia | rewrite length_drop; lia].
  destruct (Z.of_nat nr =? int32_le b2) eqn:En; cbn [negb bind];
    [apply Z.eqb_eq in En; lia | reflexivity].
Qed.

Lemma Load_truncated_witness :
  Load (kHeader ++ le32 8 ++ le32 1 ++ str_slabs ++ zeros 15) = Ok None
  /\ Load (kHeader ++ le32 8 ++ le32 0 ++ zeros 7) = Ok None.
Proof.
  split.
  - apply (Load_truncated (le32 8) (le32 1) (str_slabs ++ zeros 15));
      try reflexivity; vm_compute; (reflexivity || discriminate).
  - apply (Load_truncated (le32 8) (le32 0) (zeros 7));
      try reflexivity; vm_compute; (reflexivity || discriminate).
Defined.

(** The layout of an image: after the header and the two sizes come
    exactly as many slab bytes and as many 16-byte cells as the sizes say;
    what follows the cells is not read. Each cell keeps its tag, flags and
    inline bytes, and a slab-backed cell gets the pointer at its offset. *)
Theorem Load_layout (b1 b2 slabs raw trailing : list byte) (n : nat) :
  length b1 = 4%nat -> length b2 = 4%nat ->
  int32_le b1 = Z.of_nat (length slabs) ->
  int32_le b2 = Z.of_nat n ->
  length raw = (n * 16)%nat ->
  Forall (length_word_inside (Z.of_nat (length slabs))) (Cells_of_bytes n raw) ->
  Load (kHeader ++ b1 ++ b2 ++ slabs ++ raw ++ trailing)
  = Ok (Some (mkOHeap slabs (Z.of_nat n) (patched <$> Cells_of_bytes n raw))).
Proof.
  intros H1 H2 Hs Hn Hraw Hin. unfold Load.
  rewrite (Load_read_sizes b1 b2 _ H1 H2). rewrite Hs, Hn.
  destruct (Z.of_nat (length slabs) <? 0) eqn:E1; [lia |].
  rewrite Nat2Z.id.
  rewrite (fread_exact 1 (length slabs) slabs) by lia.
  rewrite Z.eqb_refl. cbn [negb].
  destruct (Z.of_nat n <? 0) eqn:E2; [lia |]. rewrite Nat2Z.id.
  rewrite (fread_exact 16 n raw) by (lia || exact Hraw).
  rewrite Z.eqb_refl. cbn [negb bind].
  destruct (Cells_of_bytes_wire8 n raw Hraw) as [Hl Hw].
  pose proof (Load_patch_all _ Hw) as Hp. rewrite Hl in Hp.
  pose proof (Load_log_patched _ _ _ 0 Hin eq_refl) as Hg. rewrite Hl in Hg.
  rewrite !Nat2Z.id, Hp. cbn [bind]. rewrite Hg. reflexivity.
Qed.

Lemma Load_layout_witness :
  Load (kHeader ++ le32 8 ++ le32 1 ++ str_slabs ++ slab_cell TAG_STR 4
        ++ ascii_hello)
  = Ok (Some (mkOHeap str_slabs 1
                [mkCell TAG_STR (B 1) (B 0) (zeros 4) (Ptr 4)])).
Proof.
  apply (Load_layout (le32 8) (le32 1) str_slabs (slab_cell TAG_STR 4)
           ascii_hello 1); try reflexivity.
  constructor; [| constructor].
  unfold length_word_inside. vm_compute. intros _. split; discriminate.
Defined.

Lemma Load_log_inv (slabs : list byte) (cells : list Cell) (todo i j : nat) :
  Load_log slabs cells i todo = Ok tt ->
  (i <= j < i + todo)%nat -> Load_log_at slabs cells j = Ok tt.
Proof.
  revert i. induction todo as [| todo IH]; intros i H Hj; [lia |].
  cbn [Load_log] in H. apply bind_Ok in H as ([] & Hat & H).
  destruct (decide (j = i)) as [-> | Hne]; [exact Hat |].
  apply (IH (S i) H). lia.
Qed.

Lemma Load_log_at_inside (slabs : list byte) (cells : list Cell) (j : nat)
    (c : Cell) :
  cells !! j = Some c -> slab_flag c = true ->
  Load_log_at slabs cells j = Ok tt ->
  exists p, payload c = Ptr p /\ 0 <= p <= Z.of_nat (length slabs) - 4.
Proof.
  intros Hc Hflag H. unfold Load_log_at in H. rewrite Hc, Hflag in H.
  apply bind_Ok in H as (p & Hp & H).
  apply bind_Ok in H as (v & Hv & _).
  unfold cell_ptr in Hp. destruct (payload c) as [b | p'] eqn:Ep;
    [discriminate |]. injection Hp as ->. exists p. split; [reflexivity |].
  unfold int32_at in Hv. apply bind_Ok in Hv as (bs & Hbs & _).
  unfold bytes_at, ptr_add in Hbs.
  destruct ((0 <=? p) && (p <=? Z.of_nat (length slabs))) eqn:Ein.
  - apply andb_true_iff in Ein as [E0 E1].
    destruct ((0 <=? 4 * 0) &&
              (4 * 0 + Z.of_nat 4 <=? Z.of_nat (length (drop (Z.to_nat p) slabs))))
      eqn:Eb; [| discriminate].
    apply andb_true_iff in Eb as [_ Eb]. rewrite length_drop in Eb.
    apply Z.leb_le in E0, E1, Eb. lia.
  - cbn in Hbs. discriminate.
Qed.

(** Whenever [Load] returns true, the heap it hands over has as many cells
    as [num_cells_] says, every slab-backed cell points at a length word
    inside the slab buffer, and every other cell is as it was read. *)
Theorem Load_heap_shape (f : list byte) (heap : OHeap) :
  Load f = Ok (Some heap) ->
  num_cells_ heap = Z.of_nat (length (cells_ heap))
  /\ slab_pointers_inside heap.
Proof.
  intros H. unfold Load in H. apply bind_Ok in H as (r & Hread & H).
  destruct r as [[[slabs n] cells] |]; [| discriminate].
  destruct (Load_read_shape _ _ _ _ Hread) as (Hn & Hlen & Hw).
  apply bind_Ok in H as (cells' & Hpatch & H).
  apply bind_Ok in H as ([] & Hlog & H). injection H as <-.
  rewrite <- Hlen, (Load_patch_all _ Hw) in Hpatch. injection Hpatch as <-.
  cbn [num_cells_ cells_ slabs_]. unfold slab_pointers_inside.
  cbn [cells_ slabs_]. split; [rewrite length_fmap; lia |].
  apply Forall_lookup. intros j c' Hc'.
  pose proof (lookup_lt_Some _ _ _ Hc') as Hj. rewrite length_fmap in Hj.
  destruct (slab_flag c') eqn:Hflag.
  - apply (Load_log_at_inside slabs _ j c' Hc' Hflag).
    apply (Load_log_inv _ _ _ 0 j Hlog). lia.
  - rewrite list_lookup_fmap in Hc'.
    destruct (cells !! j) as [c |] eqn:Hc; [| discriminate].
    injection Hc' as <-. unfold patched in *.
    destruct (slab_flag c) eqn:Hf.
    + unfold slab_flag in Hflag, Hf. cbn [is_slab] in Hflag. congruence.
    + exact (proj1 (Forall_lookup _ _) Hw _ _ Hc).
Qed.

Lemma Load_heap_shape_witness :
  num_cells_ (heap_of str_image) = 2 /\ slab_pointers_inside (heap_of str_image).
Proof.
  apply (Load_heap_shape str_image (heap_of str_image)).
  vm_compute. reflexivity.
Defined.

(** * Further properties of the typed views *)

(** [AsStr] and [AsStr0] answer alike: one returns false exactly when the
    other returns the null pointer, and the characters [AsStr0] points at
    are the data of the view [AsStr] fills in. *)
Theorem OHeap_AsStr_AsStr0 (heap : OHeap) (h : Handle) :
  (OHeap_AsStr heap h = Ok None <-> OHeap_AsStr0 heap h = Ok None)
  /\ (forall s, OHeap_AsStr heap h = Ok (Some s) ->
                OHeap_AsStr0 heap h = Ok (Some (Str_data s))).
Proof.
  unfold OHeap_AsStr, OHeap_AsStr0, slab_view.
  destruct (cell_at heap h) as [cell | |]; cbn [bind];
    [| split; [split |]; intros; discriminate ..].
  destruct (negb (tag cell =? TAG_STR)); [split; [tauto | discriminate] |].
  destruct (slab_flag cell).
  - destruct (cell_ptr cell) as [p | |]; cbn [bind];
      [| split; [split |]; intros; discriminate ..].
    destruct (int32_at (ptr_add (slabs_ heap) p) 0) as [n | |]; cbn [bind];
      (split; [split; discriminate |]); intros s H; [| discriminate ..].
    injection H as <-. reflexivity.
  - cbn [bind]. split; [split; discriminate |].
    intros s H. injection H as <-. reflexivity.
Qed.

(** Reading memory has no assertion to fail. *)
Lemma bytes_at_no_Abort (mem : list byte) (off : Z) (n : nat) :
  bytes_at mem off n <> Abort.
Proof. unfold bytes_at. destruct (_ && _); discriminate. Qed.

Lemma cell_at_no_Abort (heap : OHeap) (h : Handle) : cell_at heap h <> Abort.
Proof.
  unfold cell_at. destruct (h <? 0); [discriminate |].
  destruct (cells_ heap !! Z.to_nat h); discriminate.
Qed.

Lemma slab_view_no_Abort (heap : OHeap) (cell : Cell) :
  slab_view heap cell <> Abort.
Proof.
  unfold slab_view, cell_ptr, int32_at. destruct (slab_flag cell); [| discriminate].
  destruct (payload cell) as [b | p]; [discriminate |]. cbn [bind].
  pose proof (bytes_at_no_Abort (ptr_add (slabs_ heap) p) (4 * 0) 4) as Hb.
  destruct (bytes_at (ptr_add (slabs_ heap) p) (4 * 0) 4); cbn [bind];
    [discriminate | contradiction | discriminate].
Qed.

(** A string field of a code object is read as [OHeap::AsStr] reads the
    cell the field names; where [OHeap::AsStr] returns false,
    [Code::AsStr] fails its assertion. *)
Theorem Code_AsStr_OHeap_AsStr (heap : OHeap) (co : Code) (field_index : Z)
    (h : Handle) :
  Code_field heap co field_index = Ok h ->
  (forall s, Code_AsStr heap co field_index = Ok s
             <-> OHeap_AsStr heap h = Ok (Some s))
  /\ (Code_AsStr heap co field_index = Abort <-> OHeap_AsStr heap h = Ok None).
Proof.
  intros Hf. unfold Code_AsStr, OHeap_AsStr. rewrite Hf. cbn [bind].
  pose proof (cell_at_no_Abort heap h) as Hc.
  destruct (cell_at heap h) as [cell | |]; cbn [bind];
    [| contradiction | split; [intros s |]; split; discriminate].
  pose proof (slab_view_no_Abort heap cell) as Hv.
  unfold assert. destruct (tag cell =? TAG_STR); cbn [negb bind].
  - destruct (slab_view heap cell) as [v | |]; cbn [bind];
      [| contradiction |];
      (split; [intros s |]; split; intros H; try discriminate H).
    + injection H as <-. reflexivity.
    + injection H as <-. reflexivity.
  - split; [intros s |]; split; intros H; (discriminate H || reflexivity).
Qed.

Lemma Code_AsStr_OHeap_AsStr_witness :
  let heap := heap_of (program ascii_print bc_hello) in
  Code_name heap (mkCode 9) = Ok (mkStr 4 (ascii_main ++ zeros 8)).
Proof.
  intros heap.
  apply (proj1 (Code_AsStr_OHeap_AsStr heap (mkCode 9) 6 2 eq_refl)).
  vm_compute. reflexivity.
Defined.

(** The two [AsInt] never both succeed: an integer field that
    [Code::AsInt] reads is refused by [OHeap::AsInt], and a cell
    [OHeap::AsInt] accepts makes [Code::AsInt] fail its assertion. *)
Theorem Code_AsInt_OHeap_AsInt (heap : OHeap) (co : Code) (field_index : Z)
    (h : Handle) :
  Code_field heap co field_index = Ok h ->
  (forall v, Code_AsInt heap co field_index = Ok v ->
             OHeap_AsInt heap h = Ok None)
  /\ (forall v, OHeap_AsInt heap h = Ok (Some v) ->
                Code_AsInt heap co field_index = Abort).
Proof.
  intros Hf. unfold Code_AsInt, OHeap_AsInt. rewrite Hf. cbn [bind].
  destruct (cell_at heap h) as [cell | |]; cbn [bind];
    [| split; intros v H; discriminate H ..].
  unfold assert. destruct (tag cell =? TAG_INT) eqn:Ei;
    destruct (tag cell =? TAG_STR) eqn:Es; cbn [negb bind];
    try (apply Z.eqb_eq in Ei, Es; unfold TAG_INT, TAG_STR in *; lia);
    split; intros v H; (discriminate H || reflexivity).
Qed.

Lemma Code_AsInt_OHeap_AsInt_witness :
  let heap := heap_of (program ascii_print bc_hello) in
  Code_argcount heap (mkCode 9) = Ok 0 /\ OHeap_AsInt heap 1 = Ok None.
Proof.
  intros heap. split; [vm_compute; reflexivity |].
  apply (proj1 (Code_AsInt_OHeap_AsInt heap (mkCode 9) 1 1 eq_refl) 0).
  vm_compute. reflexivity.
Defined.

(** * Further properties of the interpreter *)

Lemma alter_with_value_stack_id (l : list Frame) (fp : nat) :
  alter (with_value_stack
           (match l !! fp with Some f => value_stack_ f | None => [] end))
        fp l = l.
Proof.
  apply list_eq. intros j. rewrite list_lookup_alter.
  destruct (decide (fp = j)) as [<- | _]; [| reflexivity].
  destruct (l !! fp) as [f |]; [| reflexivity].
  destruct f. reflexivity.
Qed.

Lemma touches_only_refl (fp : nat) (vm : VM) : touches_only fp vm vm.
Proof.
  eexists _, []. rewrite alter_with_value_stack_id, app_nil_r.
  destruct vm. reflexivity.
Qed.

Lemma touches_only_trans (fp : nat) (vm1 vm2 vm3 : VM) :
  touches_only fp vm1 vm2 -> touches_only fp vm2 vm3 -> touches_only fp vm1 vm3.
Proof.
  intros (v1 & m1 & ->) (v2 & m2 & ->). exists v2, (m1 ++ m2).
  cbn [heap_ call_stack_ stdout_]. rewrite list_alter_alter_eq, app_assoc.
  reflexivity.
Qed.

Lemma touches_only_set_value_stack (fp : nat) (vm : VM) (v : list Handle) :
  touches_only fp vm (set_value_stack vm fp v).
Proof. exists v, []. rewrite app_nil_r. reflexivity. Qed.

Lemma touches_only_print (fp : nat) (vm : VM) (v : list Handle)
    (more : list byte) :
  touches_only fp vm (set_value_stack (set_stdout vm (stdout_ vm ++ more)) fp v).
Proof. exists v, more. reflexivity. Qed.

(** [func_print] has two outcomes: Exception with nothing done, or Not
    with the handle 0 returned and output added. *)
Lemma func_print_inv (heap : OHeap) (args : Args) (rets rets' : Rets)
    (out out' : list byte) (w : Why) :
  func_print heap args rets out = Ok (w, rets', out') ->
  (w = Exception /\ rets' = rets /\ out' = out)
  \/ (w = Not /\ rets' = rets ++ [0] /\ exists more, out' = out ++ more).
Proof.
  intros H. unfold func_print in H.
  apply bind_Ok in H as (a0 & _ & H). apply bind_Ok in H as (r & _ & H).
  destruct r as [s |].
  - apply bind_Ok in H as (w' & _ & H). injection H as <- <- <-.
    right. repeat split. eexists. reflexivity.
  - injection H as <- <- <-. left. repeat split.
Qed.

(** What one CALL_FUNCTION can change. *)
Lemma do_CALL_FUNCTION_effect (fp : nat) (st st' : Regs) (oparg : Z) :
  do_CALL_FUNCTION fp st oparg = Ok st' ->
  touches_only fp (r_vm st) (r_vm st')
  /\ r_i st' = r_i st /\ r_n st' = r_n st
  /\ (r_why st' = r_why st \/ r_why st' = Not \/ r_why st' = Exception).
Proof.
  intros H. unfold do_CALL_FUNCTION in H.
  apply bind_Ok in H as (frame & _ & H). apply bind_Ok in H as ([] & _ & H).
  apply bind_Ok in H as (popped & _ & H). apply bind_Ok in H as ([] & _ & H).
  apply bind_Ok in H as ([] & _ & H).
  apply bind_Ok in H as (func_handle & _ & H).
  apply bind_Ok in H as (value_stack & _ & H).
  destruct (func_handle <? 0).
  - apply bind_Ok in H as ([[w rets] out] & Hp & H).
    apply func_print_inv in Hp as [(-> & -> & ->) | (-> & -> & more & ->)];
      cbn [bool_decide decide_rel Why_eq_dec negb] in H.
    + injection H as <-. cbn [r_vm r_why r_i r_n].
      repeat split; [| tauto].
      exists value_stack, []. rewrite app_nil_r. reflexivity.
    + apply bind_Ok in H as ([] & _ & H). apply bind_Ok in H as (r0 & _ & H).
      injection H as <-. cbn [r_vm r_why r_i r_n].
      repeat split; [apply touches_only_print | tauto].
  - apply bind_Ok in H as ([] & _ & H). apply bind_Ok in H as (r0 & _ & H).
    injection H as <-. cbn [r_vm r_why r_i r_n].
    repeat split; [apply touches_only_set_value_stack | tauto].
Qed.

(** What the [switch] can change. *)
Lemma dispatch_effect (ops : opcode_h) (names consts : Tuple) (fp : nat)
    (st st' : Regs) (op : Z) (oparg : option Z) :
  dispatch ops names consts fp st op oparg = Ok st' ->
  touches_only fp (r_vm st) (r_vm st')
  /\ r_i st' = r_i st /\ r_n st' = r_n st
  /\ (r_why st' = r_why st \/ r_why st' = Not \/ r_why st' = Exception
      \/ r_why st' = Return).
Proof.
  intros H. unfold dispatch in H.
  destruct (op =? LOAD_CONST ops);
    [| destruct (op =? LOAD_NAME ops);
       [| destruct (op =? POP_TOP ops);
          [| destruct (op =? CALL_FUNCTION ops);
             [| destruct (op =? RETURN_VALUE ops)]]]].
  - res_inv H. subst st'. cbn [r_vm r_why r_i r_n].
    repeat split; [apply touches_only_set_value_stack | tauto].
  - res_inv H. subst st'. cbn [r_vm r_why r_i r_n].
    repeat split; [apply touches_only_set_value_stack | tauto].
  - res_inv H. subst st'. cbn [r_vm r_why r_i r_n].
    repeat split; [apply touches_only_set_value_stack | tauto].
  - apply bind_Ok in H as (a & _ & H).
    destruct (do_CALL_FUNCTION_effect _ _ _ _ H) as (Ht & Hi & Hn & Hw).
    repeat split; [exact Ht | exact Hi | exact Hn | tauto].
  - injection H as <-. cbn [r_vm r_why r_i r_n].
    repeat split; [apply touches_only_refl | tauto].
  - injection H as <-. repeat split; [apply touches_only_refl | tauto].
Qed.

Lemma RunFrame_iter_effect (ops : opcode_h) (char_signed : bool)
    (names consts : Tuple) (bytecode : list byte) (fp : nat) (st st' : Regs) :
  RunFrame_iter ops char_signed names consts bytecode fp st = Ok st' ->
  touches_only fp (r_vm st) (r_vm st')
  /\ r_n st' = r_n st + 1
  /\ (r_why st' = r_why st \/ r_why st' = Not \/ r_why st' = Exception
      \/ r_why st' = Return).
Proof.
  intros H. unfold RunFrame_iter in H.
  apply bind_Ok in H as (d & _ & H). destruct d as [[op oparg] i].
  apply bind_Ok in H as (st1 & Hd & H). injection H as <-.
  destruct (dispatch_effect _ _ _ _ _ _ _ _ Hd) as (Ht & _ & Hn & Hw).
  cbn [r_vm r_why r_i r_n] in *. rewrite Hn. repeat split; assumption.
Qed.

(** A property that every turn keeps holds when the loop is left. *)
Lemma RunFrame_loop_inv (ops : opcode_h) (char_signed : bool)
    (names consts : Tuple) (bytecode : list byte) (num_bytes : Z) (fp : nat)
    (P : Regs -> Prop) :
  (forall st st', P st ->
     RunFrame_iter ops char_signed names consts bytecode fp st = Ok st' ->
     P st') ->
  forall (fuel : nat) (st st' : Regs),
    P st ->
    RunFrame_loop ops char_signed fuel names consts bytecode num_bytes fp st
      = Some (Ok st') ->
    P st'.
Proof.
  intros Hstep. induction fuel as [| fuel IH]; intros st st' HP H;
    cbn [RunFrame_loop] in H; destruct (r_i st <? num_bytes).
  - discriminate.
  - injection H as <-. exact HP.
  - destruct (RunFrame_iter ops char_signed names consts bytecode fp st)
      as [st1 | |] eqn:Hiter; [| discriminate ..].
    exact (IH st1 st' (Hstep _ _ HP Hiter) H).
  - injection H as <-. exact HP.
Qed.

(** [RunFrame] is its loop, started with the signal Not. *)
Lemma VM_RunFrame_inv (ops : opcode_h) (char_signed : bool) (vm vm' : VM)
    (fp : nat) (why : Why) :
  VM_RunFrame ops char_signed vm fp = Ok (why, vm') ->
  exists names consts code st',
    RunFrame_loop ops char_signed (Z.to_nat (Str_len code)) names consts
                  (Str_data code) (Str_len code) fp (mkRegs vm Not 0 0)
      = Some (Ok st')
    /\ why = r_why st' /\ vm' = r_vm st'.
Proof.
  intros H. unfold VM_RunFrame in H.
  apply bind_Ok in H as (frame & _ & H).
  apply bind_Ok in H as ([[names consts] code] & _ & H).
  destruct (RunFrame_loop ops char_signed (Z.to_nat (Str_len code)) names
              consts (Str_data code) (Str_len code) fp (mkRegs vm Not 0 0))
    as [r |] eqn:Hloop; [| discriminate].
  apply bind_Ok in H as (st' & -> & H). injection H as <- <-.
  exists names, consts, code, st'. repeat split. exact Hloop.
Qed.

(** [RunFrame] changes the value stack of the frame it runs and adds to
    the output; the heap, the other frames, and the code, block stack and
    local bindings of its own frame are as before, and no frame is pushed
    or popped. *)
Theorem VM_RunFrame_touches_only (ops : opcode_h) (char_signed : bool)
    (vm vm' : VM) (fp : nat) (why : Why) :
  VM_RunFrame ops char_signed vm fp = Ok (why, vm') ->
  exists (v : list Handle) (more : list byte),
    vm' = mkVM (heap_ vm) (alter (with_value_stack v) fp (call_stack_ vm))
               (stdout_ vm ++ more).
Proof.
  intros H.
  destruct (VM_RunFrame_inv _ _ _ _ _ _ H)
    as (names & consts & code & st' & Hloop & _ & ->).
  apply (RunFrame_loop_inv ops char_signed names consts (Str_data code)
           (Str_len code) fp (fun st => touches_only fp vm (r_vm st))
           ltac:(intros st1 st2 HP Hi;
                 exact (touches_only_trans _ _ _ _ HP
                          (proj1 (RunFrame_iter_effect _ _ _ _ _ _ _ _ Hi))))
           _ (mkRegs vm Not 0 0) st' (touches_only_refl fp vm) Hloop).
Qed.

Lemma VM_RunFrame_touches_only_witness :
  let heap := heap_of (program ascii_print bc_hello) in
  let vm := mkVM heap [Frame_new (mkCode 9)] [] in
  exists v more,
    mkVM heap [mkFrame (mkCode 9) [0] [] ∅] (ascii_hello ++ [LF; LF])
    = mkVM (heap_ vm) (alter (with_value_stack v) 0%nat (call_stack_ vm))
           (stdout_ vm ++ more).
Proof.
  intros heap vm.
  apply (VM_RunFrame_touches_only py27 true vm _ 0%nat Return).
  vm_compute. reflexivity.
Defined.

(** The signal [RunFrame] returns is Not, Exception or Return: nothing in
    the interpreter produces Reraise, Break, Continue or Yield. *)
Theorem VM_RunFrame_signal (ops : opcode_h) (char_signed : bool)
    (vm vm' : VM) (fp : nat) (why : Why) :
  VM_RunFrame ops char_signed vm fp = Ok (why, vm') ->
  why = Not \/ why = Exception \/ why = Return.
Proof.
  intros H.
  destruct (VM_RunFrame_inv _ _ _ _ _ _ H)
    as (names & consts & code & st' & Hloop & -> & _).
  apply (RunFrame_loop_inv ops char_signed names consts (Str_data code)
           (Str_len code) fp
           (fun st => r_why st = Not \/ r_why st = Exception \/ r_why st = Return)
           ltac:(intros st1 st2 HP Hi;
                 destruct (RunFrame_iter_effect _ _ _ _ _ _ _ _ Hi)
                   as (_ & _ & [-> | [-> | [-> | ->]]]); tauto)
           _ (mkRegs vm Not 0 0) st' (or_introl eq_refl) Hloop).
Qed.

Lemma VM_RunFrame_signal_witness :
  Return = Not \/ Return = Exception \/ Return = Return.
Proof.
  apply (VM_RunFrame_signal py27 true
           (mkVM (heap_of (program ascii_print bc_hello))
                 [Frame_new (mkCode 9)] [])
           (mkVM (heap_of (program ascii_print bc_hello))
                 [mkFrame (mkCode 9) [0] [] ∅] (ascii_hello ++ [LF; LF]))
           0 Return).
  vm_compute. reflexivity.
Defined.

(** [RunMain] pushes one frame for the last cell and leaves it on the call
    stack when it returns: the frames that were there are unchanged, the
    new one has no blocks and no local bindings, the heap is the same and
    the output has only grown. *)
Theorem VM_RunMain_keeps_frame (ops : opcode_h) (char_signed : bool)
    (vm vm' : VM) (why : Why) :
  VM_RunMain ops char_signed vm = Ok (why, vm') ->
  exists (v : list Handle) (more : list byte),
    vm' = mkVM (heap_ vm)
               (call_stack_ vm
                ++ [mkFrame (mkCode (OHeap_Last (heap_ vm))) v [] ∅])
               (stdout_ vm ++ more).
Proof.
  intros H. unfold VM_RunMain in H. apply bind_Ok in H as (co & Hco & H).
  unfold OHeap_AsCode in Hco. apply bind_Ok in Hco as (cell & _ & Hco).
  apply bind_Ok in Hco as ([] & _ & Hco). injection Hco as <-.
  destruct (VM_RunFrame_inv _ _ _ _ _ _ H)
    as (names & consts & code & st' & Hloop & _ & ->).
  pose proof (RunFrame_loop_inv ops char_signed names consts (Str_data code)
           (Str_len code) (length (call_stack_ vm))
           (fun st => touches_only (length (call_stack_ vm)) _ (r_vm st))
           ltac:(intros st1 st2 HP Hi;
                 exact (touches_only_trans _ _ _ _ HP
                          (proj1 (RunFrame_iter_effect _ _ _ _ _ _ _ _ Hi))))
           _ (mkRegs _ Not 0 0) st' (touches_only_refl _ _) Hloop)
    as (v & more & Hvm).
  exists v, more. rewrite Hvm. cbn [r_vm heap_ call_stack_ stdout_]. f_equal.
  rewrite <- (Nat.add_0_r (length (call_stack_ vm))), alter_app_r.
  reflexivity.
Qed.

Lemma VM_RunMain_keeps_frame_witness :
  let heap := heap_of (program ascii_print bc_hello) in
  exists v more,
    mkVM heap [mkFrame (mkCode 9) [0] [] ∅] (ascii_hello ++ [LF; LF])
    = mkVM heap ([] ++ [mkFrame (mkCode (OHeap_Last heap)) v [] ∅]) ([] ++ more).
Proof.
  intros heap.
  apply (VM_RunMain_keeps_frame py27 true (VM_new heap) _ Return).
  vm_compute. reflexivity.
Defined.

(** The popping loop of CALL_FUNCTION succeeds exactly when the stack
    holds at least [n] values; it takes the [n] topmost and hands them
    over top first, the last one pushed at index 0. *)
Theorem pop_args_iff (n : nat) (acc stack args rest : list Handle) :
  pop_args n acc stack = Ok (args, rest)
  <-> exists popped, length popped = n /\ stack = rest ++ rev popped
                     /\ args = acc ++ popped.
Proof.
  split.
  - revert acc stack. induction n as [| n IH]; intros acc stack H;
      cbn [pop_args] in H.
    + injection H as <- <-. exists []. cbn [rev]. rewrite !app_nil_r. auto.
    + apply bind_Ok in H as (x & Hx & H).
      apply bind_Ok in H as (stack' & Hpop & H).
      unfold back in Hx. destruct (list.last stack) as [y |] eqn:El;
        [| discriminate]. injection Hx as ->.
      apply last_Some in El as [l' ->]. rewrite pop_back_snoc in Hpop.
      injection Hpop as <-.
      destruct (IH _ _ H) as (popped & Hlen & -> & ->).
      exists (x :: popped). cbn [length rev]. unfold push_back.
      rewrite <- !app_assoc. cbn [app]. auto.
  - intros (popped & <- & -> & ->).
    rewrite <- (length_rev popped), pop_args_app, rev_involutive.
    reflexivity.
Qed.

(** A call of a native function: whatever negative handle the callee is,
    print is called; it prints the argument pushed last and ignores the
    others. The callee and the arguments are replaced by the handle 0 and
    the signal becomes Not, whatever it was. *)
Theorem do_CALL_FUNCTION_native_print (fp : nat) (st : Regs) (oparg : Z)
    (frame : Frame) (below earlier : list Handle) (callee a : Handle)
    (cell : Cell) (len : Z) (data : list byte) :
  frame_at (r_vm st) fp = Ok frame ->
  value_stack_ frame = below ++ callee :: earlier ++ [a] ->
  Z.of_nat (length (earlier ++ [a])) = Z.land oparg 255 ->
  callee < 0 ->
  Forall (printable (heap_ (r_vm st))) (value_stack_ frame) ->
  cell_at (heap_ (r_vm st)) a = Ok cell ->
  tag cell = TAG_STR ->
  Str_of (heap_ (r_vm st)) cell len data ->
  0 <= len <= Z.of_nat (length data) ->
  do_CALL_FUNCTION fp st oparg
  = Ok (mkRegs (set_value_stack
                  (set_stdout (r_vm st)
                     (stdout_ (r_vm st) ++ take (Z.to_nat len) data ++ [LF; LF]))
                  fp (below ++ [0]))
               Not (r_i st) (r_n st)).
Proof.
  intros Hf Hstack Hlen Hcallee Hprint Hc Ht Hs Hl.
  unfold do_CALL_FUNCTION. rewrite Hf. cbn [bind].
  rewrite (VM_DebugHandleArray_Ok _ _ Hprint). cbn [bind].
  rewrite Hstack in *. rewrite <- Hlen, Nat2Z.id.
  change (below ++ callee :: earlier ++ [a])
    with (below ++ [callee] ++ (earlier ++ [a])) in *.
  rewrite app_assoc in *. rewrite pop_args_app. cbn [bind fst snd app].
  apply Forall_app in Hprint as [Hbelow Hpushed].
  rewrite (VM_DebugHandleArray_Ok _ (rev (earlier ++ [a])))
    by (apply Forall_rev; exact Hpushed).
  cbn [bind]. rewrite (VM_DebugHandleArray_Ok _ _ Hbelow). cbn [bind].
  rewrite back_snoc, pop_back_snoc. cbn [bind].
  destruct (callee <? 0) eqn:E; [| lia].
  rewrite rev_unit. unfold func_print. rewrite vec_at_0. cbn [bind].
  rewrite (OHeap_AsStr_true _ _ _ _ _ Hc Ht Hs). cbn [bind Str_len Str_data].
  unfold fwrite. destruct (len <? 0) eqn:E0; [lia |].
  rewrite bytes_at_Ok by lia. reflexivity.
Qed.

Lemma do_CALL_FUNCTION_native_print_witness :
  let heap := heap_of (program ascii_print bc_hello) in
  let vm := mkVM heap [mkFrame (mkCode 9) [-7; 0; 3] [] ∅] [] in
  do_CALL_FUNCTION 0 (mkRegs vm Return 9 3) 2
  = Ok (mkRegs (mkVM heap [mkFrame (mkCode 9) [0] [] ∅] (ascii_hello ++ [LF; LF]))
               Not 9 3).
Proof.
  intros heap vm.
  refine (do_CALL_FUNCTION_native_print 0 (mkRegs vm Return 9 3) 2
            (mkFrame (mkCode 9) [-7; 0; 3] [] ∅) [] [0] (-7) 3
            _ 5 (ascii_hello ++ zeros 7) _ _ _ _ _ _ _ _ _).
  - reflexivity.
  - reflexivity.
  - reflexivity.
  - lia.
  - assert (Hp : forall h, In h [-7; 0; 3] -> printable heap h).
    { intros h [<- | [<- | [<- | []]]]; [left; lia | ..]; right; eexists;
        (split; [vm_compute; reflexivity |]); vm_compute;
        (split; [reflexivity | discriminate]). }
    apply Forall_forall. intros h Hin. apply Hp, Hin.
  - vm_compute. reflexivity.
  - vm_compute. reflexivity.
  - unfold Str_of. replace (slab_flag _) with false by (vm_compute; reflexivity).
    split; vm_compute; reflexivity.
  - vm_compute. split; discriminate.
Defined.

(** A native call whose last-pushed argument is not a string: the callee
    and the arguments are gone from the stack, nothing is pushed in their
    place, nothing is written, and the signal is Exception. *)
Theorem do_CALL_FUNCTION_native_exception (fp : nat) (st : Regs) (oparg : Z)
    (frame : Frame) (below earlier : list Handle) (callee a : Handle)
    (cell : Cell) :
  frame_at (r_vm st) fp = Ok frame ->
  value_stack_ frame = below ++ callee :: earlier ++ [a] ->
  Z.of_nat (length (earlier ++ [a])) = Z.land oparg 255 ->
  callee < 0 ->
  Forall (printable (heap_ (r_vm st))) (value_stack_ frame) ->
  cell_at (heap_ (r_vm st)) a = Ok cell ->
  tag cell <> TAG_STR ->
  do_CALL_FUNCTION fp st oparg
  = Ok (mkRegs (set_value_stack (r_vm st) fp below) Exception (r_i st) (r_n st)).
Proof.
  intros Hf Hstack Hlen Hcallee Hprint Hc Ht.
  unfold do_CALL_FUNCTION. rewrite Hf. cbn [bind].
  rewrite (VM_DebugHandleArray_Ok _ _ Hprint). cbn [bind].
  rewrite Hstack in *. rewrite <- Hlen, Nat2Z.id.
  change (below ++ callee :: earlier ++ [a])
    with (below ++ [callee] ++ (earlier ++ [a])) in *.
  rewrite app_assoc in *. rewrite pop_args_app. cbn [bind fst snd app].
  apply Forall_app in Hprint as [Hbelow Hpushed].
  rewrite (VM_DebugHandleArray_Ok _ (rev (earlier ++ [a])))
    by (apply Forall_rev; exact Hpushed).
  cbn [bind]. rewrite (VM_DebugHandleArray_Ok _ _ Hbelow). cbn [bind].
  rewrite back_snoc, pop_back_snoc. cbn [bind].
  destruct (callee <? 0) eqn:E; [| lia].
  rewrite rev_unit. unfold func_print. rewrite vec_at_0. cbn [bind].
  rewrite (OHeap_AsStr_false _ _ _ Hc Ht). reflexivity.
Qed.

Lemma do_CALL_FUNCTION_native_exception_witness :
  let heap := heap_of (program ascii_print bc_hello) in
  let vm := mkVM heap [mkFrame (mkCode 9) [3; -1; 1] [] ∅] [] in
  do_CALL_FUNCTION 0 (mkRegs vm Not 9 3) 1
  = Ok (mkRegs (mkVM heap [mkFrame (mkCode 9) [3] [] ∅] []) Exception 9 3).
Proof.
  intros heap vm.
  refine (do_CALL_FUNCTION_native_exception 0 (mkRegs vm Not 9 3) 1
            (mkFrame (mkCode 9) [3; -1; 1] [] ∅) [3] [] (-1) 1
            _ _ _ _ _ _ _ _).
  - reflexivity.
  - reflexivity.
  - reflexivity.
  - lia.
  - assert (Hp : forall h, In h [3; -1; 1] -> printable heap h).
    { intros h [<- | [<- | [<- | []]]]; [| left; lia |]; right; eexists;
        (split; [vm_compute; reflexivity |]); vm_compute;
        (split; [reflexivity | discriminate]). }
    apply Forall_forall. intros h Hin. apply Hp, Hin.
  - vm_compute. reflexivity.
  - vm_compute. discriminate.
Defined.

(** An opcode that is none of the five the [switch] names is skipped:
    the cursor moves past it and past its operand when it has one, the
    instruction is counted, and nothing else changes. *)
Theorem RunFrame_iter_unknown_opcode (ops : opcode_h) (char_signed : bool)
    (names consts : Tuple) (bytecode : list byte) (fp : nat) (st : Regs)
    (k : nat) (c : byte) :
  r_i st = Z.of_nat k ->
  bytecode !! k = Some c ->
  byte.unsigned c <> LOAD_CONST ops ->
  byte.unsigned c <> LOAD_NAME ops ->
  byte.unsigned c <> POP_TOP ops ->
  byte.unsigned c <> CALL_FUNCTION ops ->
  byte.unsigned c <> RETURN_VALUE ops ->
  (byte.unsigned c < HAVE_ARGUMENT ops ->
   RunFrame_iter ops char_signed names consts bytecode fp st
   = Ok (mkRegs (r_vm st) (r_why st) (Z.of_nat k + 1) (r_n st + 1)))
  /\ (HAVE_ARGUMENT ops <= byte.unsigned c ->
      forall c0 c1, bytecode !! S k = Some c0 -> bytecode !! S (S k) = Some c1 ->
      RunFrame_iter ops char_signed names consts bytecode fp st
      = Ok (mkRegs (r_vm st) (r_why st) (Z.of_nat k + 3) (r_n st + 1))).
Proof.
  intros Hi Hc H1 H2 H3 H4 H5.
  assert (Hd : forall oparg st0,
             dispatch ops names consts fp st0 (byte.unsigned c) oparg = Ok st0).
  { intros oparg st0. unfold dispatch.
    destruct (byte.unsigned c =? LOAD_CONST ops) eqn:E1; [lia |].
    destruct (byte.unsigned c =? LOAD_NAME ops) eqn:E2; [lia |].
    destruct (byte.unsigned c =? POP_TOP ops) eqn:E3; [lia |].
    destruct (byte.unsigned c =? CALL_FUNCTION ops) eqn:E4; [lia |].
    destruct (byte.unsigned c =? RETURN_VALUE ops) eqn:E5; [lia |].
    reflexivity. }
  split.
  - intros Hlt. unfold RunFrame_iter.
    rewrite Hi, (fetch_no_operand _ _ _ _ _ Hc Hlt). cbn [bind].
    rewrite Hd. reflexivity.
  - intros Hge c0 c1 H0 H1'. unfold RunFrame_iter.
    rewrite Hi, (fetch_operand _ _ _ _ _ _ _ Hc H0 H1' Hge). cbn [bind].
    rewrite Hd. reflexivity.
Qed.

Lemma RunFrame_iter_unknown_opcode_witness :
  let vm := VM_new (mkOHeap [] 0 []) in
  RunFrame_iter py27 true (mkTuple 0 []) (mkTuple 0 []) [B 23; B 116; B 0; B 0]
                7 (mkRegs vm Not 0 0)
  = Ok (mkRegs vm Not 1 1)
  /\ RunFrame_iter py27 true (mkTuple 0 []) (mkTuple 0 []) [B 23; B 116; B 0; B 0]
                   7 (mkRegs vm Not 1 1)
     = Ok (mkRegs vm Not 4 2).
Proof.
  intros vm. split.
  - apply (RunFrame_iter_unknown_opcode py27 true (mkTuple 0 []) (mkTuple 0 [])
             [B 23; B 116; B 0; B 0] 7 (mkRegs vm Not 0 0) 0 (B 23));
      try reflexivity; vm_compute; discriminate.
  - refine (proj2 (RunFrame_iter_unknown_opcode py27 true (mkTuple 0 [])
                     (mkTuple 0 []) [B 23; B 116; B 0; B 0] 7
                     (mkRegs vm Not 1 1) 1 (B 116) _ _ _ _ _ _ _)
                  _ (B 0) (B 0) _ _);
      try reflexivity; vm_compute; discriminate.
Defined.

Lemma set_value_stack_back (vm : VM) (fp : nat) (frame : Frame)
    (v : list Handle) :
  frame_at vm fp = Ok frame ->
  set_value_stack (set_value_stack vm fp v) fp (value_stack_ frame) = vm.
Proof.
  intros Hf. unfold frame_at in Hf.
  destruct (call_stack_ vm !! fp) as [f |] eqn:E; [| discriminate].
  injection Hf as ->. unfold set_value_stack. cbn [heap_ call_stack_ stdout_].
  rewrite list_alter_alter_eq.
  pose proof (alter_with_value_stack_id (call_stack_ vm) fp) as Hid.
  rewrite E in Hid.
  change (with_value_stack (value_stack_ frame) ∘ with_value_stack v)
    with (with_value_stack (value_stack_ frame)).
  rewrite Hid. destruct vm. reflexivity.
Qed.

Lemma frame_at_set_value_stack (vm : VM) (fp : nat) (frame : Frame)
    (v : list Handle) :
  frame_at vm fp = Ok frame ->
  frame_at (set_value_stack vm fp v) fp = Ok (with_value_stack v frame).
Proof.
  unfold frame_at, set_value_stack. cbn [call_stack_]. intros H.
  rewrite list_lookup_alter_eq.
  destruct (call_stack_ vm !! fp) as [f |]; [| discriminate].
  injection H as ->. reflexivity.
Qed.

(** LOAD_CONST pushes the constant the operand selects, and a POP_TOP
    after it puts the machine back as it was. *)
Theorem LOAD_CONST_then_POP_TOP (ops : opcode_h) (names consts : Tuple)
    (fp : nat) (st : Regs) (frame : Frame) (a h : Z) (oparg : option Z) :
  frame_at (r_vm st) fp = Ok frame ->
  int32_at (Tuple_handles consts) a = Ok h ->
  POP_TOP ops <> LOAD_CONST ops ->
  POP_TOP ops <> LOAD_NAME ops ->
  exists st1,
    dispatch ops names consts fp st (LOAD_CONST ops) (Some a) = Ok st1
    /\ frame_at (r_vm st1) fp
       = Ok (with_value_stack (value_stack_ frame ++ [h]) frame)
    /\ dispatch ops names consts fp st1 (POP_TOP ops) oparg = Ok st.
Proof.
  intros Hf Hh Hn1 Hn2. eexists. split; [| split].
  - unfold dispatch. rewrite Z.eqb_refl. cbn [use bind].
    rewrite Hf. cbn [bind]. rewrite Hh. cbn [bind]. reflexivity.
  - cbn [r_vm]. apply frame_at_set_value_stack, Hf.
  - unfold dispatch.
    destruct (POP_TOP ops =? LOAD_CONST ops) eqn:E1; [lia |].
    destruct (POP_TOP ops =? LOAD_NAME ops) eqn:E2; [lia |].
    rewrite Z.eqb_refl. cbn [r_vm r_why r_i r_n].
    rewrite (frame_at_set_value_stack _ _ _ _ Hf). cbn [bind].
    unfold with_value_stack at 1. cbn [value_stack_]. unfold push_back.
    rewrite pop_back_snoc. cbn [bind].
    rewrite (set_value_stack_back _ _ _ _ Hf). destruct st. reflexivity.
Qed.

Lemma LOAD_CONST_then_POP_TOP_witness :
  let heap := heap_of (program ascii_print bc_hello) in
  let vm := mkVM heap [mkFrame (mkCode 9) [-1] [] ∅] [] in
  let consts := mkTuple 1 (le32 3 ++ zeros 8) in
  exists st1,
    dispatch py27 (mkTuple 0 []) consts 0 (mkRegs vm Not 6 2) 100 (Some 0) = Ok st1
    /\ frame_at (r_vm st1) 0 = Ok (mkFrame (mkCode 9) [-1; 3] [] ∅)
    /\ dispatch py27 (mkTuple 0 []) consts 0 st1 1 None = Ok (mkRegs vm Not 6 2).
Proof.
  intros heap vm consts.
  apply (LOAD_CONST_then_POP_TOP py27 (mkTuple 0 []) consts 0 (mkRegs vm Not 6 2)
           (mkFrame (mkCode 9) [-1] [] ∅) 0 3 None);
    try reflexivity; vm_compute; discriminate.
Defined.

(** LOAD_NAME of a names entry that is not a string stops the process:
    the assertion of [LoadName] fails. *)
Theorem LOAD_NAME_not_a_string (ops : opcode_h) (names consts : Tuple)
    (fp : nat) (st : Regs) (frame : Frame) (a h : Z) (cell : Cell) :
  LOAD_NAME ops <> LOAD_CONST ops ->
  frame_at (r_vm st) fp = Ok frame ->
  int32_at (Tuple_handles names) a = Ok h ->
  cell_at (heap_ (r_vm st)) h = Ok cell ->
  tag cell <> TAG_STR ->
  dispatch ops names consts fp st (LOAD_NAME ops) (Some a) = Abort.
Proof.
  intros Hne Hf Hh Hc Ht. unfold dispatch.
  destruct (LOAD_NAME ops =? LOAD_CONST ops) eqn:E; [lia |].
  rewrite Z.eqb_refl. cbn [use bind]. rewrite Hf. cbn [bind].
  rewrite Hh. cbn [bind]. unfold Frame_LoadName, OHeap_AsStr0.
  rewrite Hc. cbn [bind].
  destruct (tag cell =? TAG_STR) eqn:Et; [lia |]. reflexivity.
Qed.

Lemma LOAD_NAME_not_a_string_witness :
  let heap := heap_of (program ascii_print bc_hello) in
  let vm := mkVM heap [Frame_new (mkCode 9)] [] in
  dispatch py27 (mkTuple 1 (le32 1 ++ zeros 8)) (mkTuple 0 []) 0
           (mkRegs vm Not 3 0) 101 (Some 0)
  = Abort.
Proof.
  intros heap vm.
  eapply (LOAD_NAME_not_a_string py27 (mkTuple 1 (le32 1 ++ zeros 8))
            (mkTuple 0 []) 0 (mkRegs vm Not 3 0) (Frame_new (mkCode 9)) 0 1).
  - vm_compute. discriminate.
  - reflexivity.
  - vm_compute. reflexivity.
  - vm_compute. reflexivity.
  - vm_compute. discriminate.
Defined.

Lemma fetch_step (ops : opcode_h) (char_signed : bool) (bytecode : list byte)
    (i i' op : Z) (oparg : option Z) :
  fetch ops char_signed bytecode i = Ok (op, oparg, i') -> i < i' <= i + 3.
Proof.
  intros H. unfold fetch in H. res_inv H; inversion H; lia.
Qed.

Lemma RunFrame_iter_step (ops : opcode_h) (char_signed : bool)
    (names consts : Tuple) (bytecode : list byte) (fp : nat) (st st' : Regs) :
  RunFrame_iter ops char_signed names consts bytecode fp st = Ok st' ->
  r_i st < r_i st' <= r_i st + 3 /\ r_n st' = r_n st + 1.
Proof.
  intros H. unfold RunFrame_iter in H.
  apply bind_Ok in H as (d & Hf & H). destruct d as [[op oparg] i].
  apply bind_Ok in H as (st1 & Hd & H). injection H as <-. cbn [r_i r_n].
  destruct (dispatch_effect _ _ _ _ _ _ _ _ Hd) as (_ & Hi & Hn & _).
  cbn [r_i r_n] in Hi, Hn. rewrite Hi, Hn.
  split; [exact (fetch_step _ _ _ _ _ _ _ Hf) | reflexivity].
Qed.

(** When the loop is left, the cursor is at the end of the bytecode or at
    most two bytes past it (the operand of a last instruction is read
    without a test), and the number of instructions counted is at most the
    number of bytes that were left; a loop entered at or past the end does
    nothing. *)
Theorem RunFrame_loop_exit (ops : opcode_h) (char_signed : bool)
    (names consts : Tuple) (bytecode : list byte) (num_bytes : Z) (fp : nat)
    (fuel : nat) (st st' : Regs) :
  RunFrame_loop ops char_signed fuel names consts bytecode num_bytes fp st
    = Some (Ok st') ->
  (r_i st < num_bytes ->
   num_bytes <= r_i st' <= num_bytes + 2
   /\ r_n st < r_n st' <= r_n st + (num_bytes - r_i st))
  /\ (num_bytes <= r_i st -> st' = st).
Proof.
  revert st. induction fuel as [| fuel IH]; intros st H;
    cbn [RunFrame_loop] in H; destruct (r_i st <? num_bytes) eqn:E.
  - discriminate.
  - injection H as <-. split; [lia | reflexivity].
  - destruct (RunFrame_iter ops char_signed names consts bytecode fp st)
      as [st1 | |] eqn:Hiter; [| discriminate ..].
    destruct (RunFrame_iter_step _ _ _ _ _ _ _ _ Hiter) as [Hi Hn].
    destruct (IH st1 H) as [IH1 IH2]. split; [| lia]. intros _.
    destruct (Z_lt_le_dec (r_i st1) num_bytes) as [Hlt | Hge].
    + specialize (IH1 Hlt). lia.
    + rewrite (IH2 Hge). lia.
  - injection H as <-. split; [lia | reflexivity].
Qed.

Lemma RunFrame_loop_exit_witness :
  let vm := VM_new (mkOHeap [] 0 []) in
  let st := mkRegs vm Not 0 0 in
  let st' := mkRegs vm Not 4 2 in
  RunFrame_loop py27 true 2 (mkTuple 0 []) (mkTuple 0 [])
                [B 23; B 116; B 0; B 0] 2 7 st = Some (Ok st')
  /\ 2 <= r_i st' <= 2 + 2
  /\ r_n st < r_n st' <= r_n st + (2 - r_i st).
Proof.
  intros vm st st'.
  assert (H : RunFrame_loop py27 true 2 (mkTuple 0 []) (mkTuple 0 [])
                [B 23; B 116; B 0; B 0] 2 7 st = Some (Ok st'))
    by (vm_compute; reflexivity).
  split; [exact H |].
  apply (proj1 (RunFrame_loop_exit _ _ _ _ _ _ _ _ _ _ H)).
  vm_compute. reflexivity.
Defined.

Lemma RunFrame_loop_more_fuel (ops : opcode_h) (char_signed : bool)
    (names consts : Tuple) (bytecode : list byte) (num_bytes : Z) (fp : nat)
    (fuel extra : nat) (st : Regs) (r : Res Regs) :
  RunFrame_loop ops char_signed fuel names consts bytecode num_bytes fp st
    = Some r ->
  RunFrame_loop ops char_signed (fuel + extra) names consts bytecode
                num_bytes fp st = Some r.
Proof.
  revert st. induction fuel as [| fuel IH]; intros st H.
  - cbn [RunFrame_loop] in H. destruct (r_i st <? num_bytes) eqn:E;
      [discriminate |].
    destruct (0 + extra)%nat; cbn [RunFrame_loop]; rewrite E; exact H.
  - cbn [Nat.add RunFrame_loop] in *. destruct (r_i st <? num_bytes);
      [| exact H].
    destruct (RunFrame_iter ops char_signed names consts bytecode fp st);
      [apply IH, H | exact H ..].
Qed.

(** The loop of [RunFrame] ends: as many turns as there are bytes left
    reach its end, and more turns than that change nothing. *)
Theorem RunFrame_loop_terminates (ops : opcode_h) (char_signed : bool)
    (names consts : Tuple) (bytecode : list byte) (num_bytes : Z) (fp : nat)
    (fuel : nat) (st : Regs) :
  num_bytes - r_i st <= Z.of_nat fuel ->
  exists r,
    RunFrame_loop ops char_signed fuel names consts bytecode num_bytes fp st
      = Some r
    /\ forall extra,
         RunFrame_loop ops char_signed (fuel + extra) names consts bytecode
                       num_bytes fp st = Some r.
Proof.
  intros Hf.
  destruct (RunFrame_loop_total ops char_signed names consts bytecode
              num_bytes fp fuel st Hf) as [r Hr].
  exists r. split; [exact Hr |]. intros extra.
  exact (RunFrame_loop_more_fuel _ _ _ _ _ _ _ _ _ _ _ Hr).
Qed.

Lemma RunFrame_loop_terminates_witness :
  let vm := VM_new (mkOHeap [] 0 []) in
  exists r,
    RunFrame_loop py27 true 2 (mkTuple 0 []) (mkTuple 0 [])
                  [B 23; B 116; B 0; B 0] 2 7 (mkRegs vm Not 0 0) = Some r
    /\ forall extra,
         RunFrame_loop py27 true (2 + extra) (mkTuple 0 []) (mkTuple 0 [])
                       [B 23; B 116; B 0; B 0] 2 7 (mkRegs vm Not 0 0) = Some r.
Proof.
  intros vm.
  apply (RunFrame_loop_terminates py27 true (mkTuple 0 []) (mkTuple 0 [])
           [B 23; B 116; B 0; B 0] 2 7 2 (mkRegs vm Not 0 0)).
  vm_compute. discriminate.
Defined.

(** ** The hash of the local-binding table *)

Lemma swrap_32_range (z : Z) : - 2 ^ 31 <= swrap 32 z < 2 ^ 31.
Proof.
  unfold swrap. change (32 - 1) with 31.
  pose proof (Z.mod_pos_bound (z + 2 ^ 31) (2 ^ 32) eq_refl) as H.
  change (2 ^ 32) with (2 * 2 ^ 31) in *. lia.
Qed.

(** [NameHash] reads the characters [cstr] reads and folds them. *)
Lemma NameHash_from_cstr (char_signed : bool) (s k : list byte) (h : Z) :
  cstr s = Ok k ->
  NameHash_from char_signed h s
  = Ok (fold_left (fun h c => swrap 32 (Z.shiftl h 5 + h
                                        + char_to_int char_signed c)) k h).
Proof.
  revert k h. induction s as [| c s IH]; intros k h H; cbn [cstr] in H;
    [discriminate |].
  cbn [NameHash_from]. destruct (decide (c = NUL)).
  - injection H as <-. reflexivity.
  - apply bind_Ok in H as (k' & Hk & H). injection H as <-.
    cbn [fold_left]. exact (IH _ _ Hk).
Qed.

Lemma fold_hash_range (char_signed : bool) (k : list byte) (h : Z) :
  - 2 ^ 31 <= h < 2 ^ 31 ->
  - 2 ^ 31 <= fold_left (fun h c => swrap 32 (Z.shiftl h 5 + h
                                    + char_to_int char_signed c)) k h < 2 ^ 31.
Proof.
  revert h. induction k as [| c k IH]; intros h Hh; cbn [fold_left];
    [exact Hh |].
  apply IH, swrap_32_range.
Qed.

(** The hash agrees with the equality, as a hash table needs: two names
    that [NameEq] finds equal have the same hash, and the hash is a 32-bit
    integer. *)
Theorem NameHash_respects_NameEq (char_signed : bool) (x y : list byte) :
  NameEq x y = Ok true ->
  NameHash char_signed x = NameHash char_signed y
  /\ exists h, NameHash char_signed x = Ok h /\ - 2 ^ 31 <= h < 2 ^ 31.
Proof.
  intros H. unfold NameEq, strcmp_eq in H.
  apply bind_Ok in H as (a & Ha & H). apply bind_Ok in H as (b & Hb & H).
  injection H as H. apply bool_decide_eq_true_1 in H. subst b.
  unfold NameHash.
  rewrite (NameHash_from_cstr _ _ _ _ Ha), (NameHash_from_cstr _ _ _ _ Hb).
  split; [reflexivity |]. eexists. split; [reflexivity |].
  apply fold_hash_range. lia.
Qed.

Lemma NameHash_respects_NameEq_witness :
  NameHash true (ascii_print ++ zeros 7) = NameHash true print_lit
  /\ exists h, NameHash true (ascii_print ++ zeros 7) = Ok h
               /\ - 2 ^ 31 <= h < 2 ^ 31.
Proof.
  apply (NameHash_respects_NameEq true (ascii_print ++ zeros 7) print_lit).
  vm_compute. reflexivity.
Defined.
